(** * Aard Dictionary Tools: the article pipeline, its renderer hooks and
      the batch scheduler

    A shallow embedding of [aardtools/wiki.py] and
    [aardtools/mwaardhtmlwriter.py].  Python [unicode] text is a
    [string]; a Python exception is a value of [exn] carried by the
    [result] monad; a [dict] is a [gmap]; the consumer is the list of the
    calls it received.  Code of mwlib, json, re and multiprocessing is not
    part of the repository: what the two modules need from it is collected
    in the class [Extern] (functions) and in the schedule of pool events
    (the order in which workers answer). *)

From stdpp Require Import gmap strings list pretty.
From Stdlib Require Import ZArith Lia Ascii.

Set Warnings "-register-all".

Open Scope string_scope.
Open Scope list_scope.
Open Scope Z_scope.

(** ** Python values and exceptions *)

(** Exceptions raised by library code (mwlib, the cdb reader, re, the
    interpreter itself). *)
Inductive lib_exn :=
| KeyError (key : string)
| TypeError (msg : string)
| OtherError (descr : string).

(** [wiki.ConvertError] and its two subclasses; [exn_title] is the
    attribute [title] set by [ConvertError.__init__]. *)
Inductive exn :=
| ConvertError (title : string)
| EmptyArticleError (title : string)
| BadRedirect (title : string)
| LibError (e : lib_exn).

Definition exn_title (e : exn) : option string :=
  match e with
  | ConvertError t | EmptyArticleError t | BadRedirect t => Some t
  | LibError _ => None
  end.

Inductive result (A : Type) :=
| Ok (a : A)
| Raise (e : exn).
Arguments Ok {A} a.
Arguments Raise {A} e.

#[global] Instance result_ret : MRet result := fun _ a => Ok a.

#[global] Instance result_bind : MBind result := fun _ _ k m =>
  match m with
  | Ok a => k a
  | Raise e => Raise e
  end.

(** A library call: its exception, if any, travels as [LibError]. *)
Definition lift {A} (m : lib_exn + A) : result A :=
  match m with
  | inl e => Raise (LibError e)
  | inr a => Ok a
  end.

(** ** Python string methods *)

Module Str.

(** [unicode.isspace] on the code points a [string] can hold. *)
Definition isspace (c : Ascii.ascii) : bool :=
  let n := Z.of_nat (Ascii.nat_of_ascii c) in
  ((9 <=? n) && (n <=? 13)) || ((28 <=? n) && (n <=? 32))
  || (n =? 133) || (n =? 160).

(** [s.startswith(p)] *)
Fixpoint startswith (s p : string) {struct p} : bool :=
  match p with
  | EmptyString => true
  | String c p' =>
      match s with
      | EmptyString => false
      | String d s' => if Ascii.eqb d c then startswith s' p' else false
      end
  end.

(** [len(s)] *)
Definition len (s : string) : Z := Z.of_nat (String.length s).

(** [s.find(sub)]: the lowest index at which [sub] occurs, or [-1]. *)
Fixpoint find_from (s sub : string) (i : Z) : Z :=
  if startswith s sub then i
  else match s with
       | EmptyString => -1
       | String _ s' => find_from s' sub (i + 1)
       end.

Definition find (s sub : string) : Z := find_from s sub 0.

Fixpoint drop (n : nat) (s : string) : string :=
  match n, s with
  | O, _ => s
  | S n', String _ s' => drop n' s'
  | S _, EmptyString => EmptyString
  end.

Fixpoint take (n : nat) (s : string) : string :=
  match n, s with
  | S n', String c s' => String c (take n' s')
  | _, _ => EmptyString
  end.

(** [s[i:]] and [s[i:j]] for indices that are not negative (the only
    ones the two modules compute). *)
Definition slice_from (s : string) (i : Z) : string := drop (Z.to_nat i) s.

Definition slice (s : string) (i j : Z) : string :=
  take (Z.to_nat (j - i)) (drop (Z.to_nat i) s).

(** [s.lstrip()], [s.rstrip()], [s.strip()] *)
Fixpoint lstrip (s : string) : string :=
  match s with
  | EmptyString => EmptyString
  | String c s' => if isspace c then lstrip s' else s
  end.

Fixpoint rstrip (s : string) : string :=
  match s with
  | EmptyString => EmptyString
  | String c s' =>
      match rstrip s' with
      | EmptyString => if isspace c then EmptyString else String c EmptyString
      | r => String c r
      end
  end.

Definition strip (s : string) : string := rstrip (lstrip s).

(** [s.replace(a, b)] for one-character [a] and [b]. *)
Fixpoint replace_char (a b : Ascii.ascii) (s : string) : string :=
  match s with
  | EmptyString => EmptyString
  | String c s' =>
      String (if Ascii.eqb c a then b else c) (replace_char a b s')
  end.

(** [s.split()]: the maximal runs of characters that are not white
    space. *)
Fixpoint split_go (cur : string) (s : string) : list string :=
  match s with
  | EmptyString =>
      match cur with EmptyString => [] | _ => [String.rev cur] end
  | String c s' =>
      if isspace c
      then match cur with
           | EmptyString => split_go EmptyString s'
           | _ => String.rev cur :: split_go EmptyString s'
           end
      else split_go (String c cur) s'
  end.

Definition split (s : string) : list string := split_go EmptyString s.

(** Truth value of a text that may be [None]. *)
Definition truthy (o : option string) : bool :=
  match o with
  | Some (String _ _) => true
  | _ => false
  end.

End Str.

(** ** What the two modules take from their libraries *)

Inductive json :=
| JString (s : string)
| JArray (l : list json)
| JObject (l : list (string * json)).

(** A node of mwlib's parse tree, as far as the two modules look into
    it: its attribute dictionary and its children. *)
Inductive node :=
| Node (attributes : gmap string string) (children : list node).

Definition attributes (n : node) : gmap string string :=
  match n with Node a _ => a end.

(** [xml.etree.ElementTree.Element] *)
Inductive element :=
| Element (tag : string) (attrib : list (string * string))
          (text tail : option string) (children : list element).

(** What a handler [xwriteXxx] hands back to [MWXHTMLWriter.write]:
    an element, [SkipChildren(e)], [SkipChildren()] or nothing. *)
Inductive handler_result :=
| Elem (e : element)
| SkipChildren (e : option element)
| NoElement.

Class Extern := {
  (** [unicode.upper] *)
  upper : string → string;
  (** [json.dumps(_, ensure_ascii=False)] *)
  tojson : json → string;
  (** [mwlib.uparser.parseString] followed by [xhtmlwriter.preprocess] *)
  parseString : string → string → lib_exn + node;
  (** [compiled_pattern.sub(repl, text)] *)
  re_sub : string → string → string → lib_exn + string;
  (** [MWXHTMLWriter.xwriteTable] and [MWXHTMLWriter.xwriteGenericElement] *)
  base_xwriteTable : node → handler_result;
  base_xwriteGenericElement : node → handler_result;
  (** [MWXHTMLWriter.writeChildren(obj, parent)]: the rendered children *)
  writeChildren : node → list element;
  (** [MWXHTMLWriter.write(obj)] serialised by [ET.tostring], and the
      language links the writer collected on the way *)
  write : node → lib_exn + (string * list (string * string));
}.

(** ** wiki.py: redirects *)

Section Redirect.
Context `{Extern}.

Definition alias_matches (text alias : string) : bool :=
  Str.startswith text alias || Str.startswith (upper text) alias.

(** [parse_redirect(text, aliases)] *)
Fixpoint parse_redirect (text : string) (aliases : list string)
  : result (option string) :=
  match aliases with
  | [] => Ok None
  | alias :: rest =>
      if Str.startswith text alias || Str.startswith (upper text) alias
      then
        let text := Str.lstrip (Str.slice_from text (Str.len alias)) in
        let begin := Str.find text "[[" in
        if begin <? 0 then Raise (BadRedirect text)
        else
          let end_ := Str.find text "]]" in
          if end_ <? 0 then Raise (BadRedirect text)
          else Ok (Some (Str.slice text (begin + 2) end_))
      else parse_redirect text rest
  end.

End Redirect.

(** ** mwaardhtmlwriter.py *)


(** The per-article state of an [XHTMLWriter]: [self.references], a
    [defaultdict(list)], and [self.namedrefs], a [defaultdict(dict)] from
    a name to the pair (position first seen, count). *)
Record XHTMLWriter := mkWriter {
  references : gmap string (list node);
  namedrefs : gmap string (gmap string (nat * nat));
}.

(** [XHTMLWriter.__init__] *)
Definition new_writer : XHTMLWriter := mkWriter ∅ ∅.

(** [d[k]] on a [defaultdict]: a missing key is entered with the default
    value. *)
Definition defaultdict_getitem {V} (dflt : V) (d : gmap string V) (k : string)
  : gmap string V * V :=
  match d !! k with
  | Some v => (d, v)
  | None => (<[k := dflt]> d, dflt)
  end.

(** [XHTMLWriter.mknoteid] *)
Definition mknoteid (group : string) (num : nat) : string :=
  "_n" +:+ group +:+ "_" +:+ pretty num.

(** The tail of [xwriteReference]: the inline marker [a]. *)
Definition marker (group : string) (note_seq_num : nat)
    (noteid refid : string) : element :=
  Element "a"
    [("id", refid); ("href", "#");
     ("onClick", "return s('" +:+ noteid +:+ "')")]
    (Some ("[" +:+ Str.strip (group +:+ " " +:+ pretty note_seq_num) +:+ "]"))
    None [].

Section Writer.
Context `{Extern}.



(** [XHTMLWriter.xwriteReference].  [group_references] aliases the list
    stored in [self.references], so [append] is an update of the map. *)
Definition xwriteReference (self : XHTMLWriter) (obj : node)
  : XHTMLWriter * handler_result :=
  let group := default "" (attributes obj !! "group") in
  let '(refs, group_references) :=
    defaultdict_getitem [] (references self) group in
  let ref_name := attributes obj !! "name" in
  if Str.truthy ref_name then
    let ref_name := Str.replace_char " "%char "_"%char (default "" ref_name) in
    let '(named, group_namedrefs) :=
      defaultdict_getitem ∅ (namedrefs self) group in
    let '(refs, named_ref_first, named_ref_count) :=
      match group_namedrefs !! ref_name with
      | Some (first, count) => (refs, first, count)
      | None =>
          let group_references := group_references ++ [obj] in
          (<[group := group_references]> refs,
           length group_references, 0%nat)
      end in
    let note_seq_num := named_ref_first in
    let noteid := mknoteid group named_ref_first in
    let refid := "_r" +:+ noteid +:+ "_" +:+ pretty named_ref_count in
    let named_ref_count := S named_ref_count in
    let group_namedrefs :=
      <[ref_name := (named_ref_first, named_ref_count)]> group_namedrefs in
    (mkWriter refs (<[group := group_namedrefs]> named),
     SkipChildren (Some (marker group note_seq_num noteid refid)))
  else
    let group_references := group_references ++ [obj] in
    let note_seq_num := length group_references in
    let noteid := mknoteid group note_seq_num in
    let refid := "_r" +:+ noteid in
    (mkWriter (<[group := group_references]> refs) (namedrefs self),
     SkipChildren (Some (marker group note_seq_num noteid refid))).

(** A back link of the reference list. *)
Definition backref (ref_id text : string) (tail : option string) : element :=
  Element "a"
    [("href", "#" +:+ ref_id);
     ("onClick", "return s('" +:+ ref_id +:+ "')")]
    (Some text) tail [].

(** One pass of the loop of [xwriteReferenceList]: the [li] of the
    reference at index [i]. *)
Definition reference_item (group : string)
    (group_namedrefs : gmap string (nat * nat)) (i : nat) (ref : node)
  : element :=
  let noteid := mknoteid group (i + 1) in
  let ref_name := attributes ref !! "name" in
  let b :=
    match (if Str.truthy ref_name
           then group_namedrefs !! default "" ref_name else None) with
    | Some (_, name_ref_count) =>
        if (name_ref_count =? 1)%nat then
          let ref_id := "_r" +:+ noteid +:+ "_" +:+ pretty 0%nat in
          Element "b" [] None (Some " ") [backref ref_id "↑" None]
        else
          Element "b" [] (Some "↑ ") (Some " ")
            [Element "sup" [] None None
               ((fun j : nat =>
                   backref ("_r" +:+ noteid +:+ "_" +:+ pretty j)
                     (pretty (j + 1)%nat) (Some " "))
                  <$> seq 0 name_ref_count)]
    | None =>
        Element "b" [] None (Some " ") [backref ("_r" +:+ noteid) "↑" None]
    end in
  Element "li" [("id", noteid)] None None (b :: writeChildren ref).

(** [XHTMLWriter.xwriteReferenceList].  [dict.pop(key)] without a
    default raises KeyError on a missing key, on a [defaultdict] too:
    only [d[key]] consults the default factory. *)
Definition xwriteReferenceList (self : XHTMLWriter) (t : node)
  : result (XHTMLWriter * option element) :=
  if bool_decide (references self = ∅) then Ok (self, None)
  else
    let group := default "" (attributes t !! "group") in
    match references self !! group with
    | None => Raise (LibError (KeyError group))
    | Some refs =>
        let self := mkWriter (delete group (references self))
                             (namedrefs self) in
        match refs with
        | [] => Ok (self, None)
        | _ =>
            let '(named, group_namedrefs) :=
              defaultdict_getitem ∅ (namedrefs self) group in
            Ok (mkWriter (references self) named,
                Some (Element "ol" [] None None
                        (imap (reference_item group group_namedrefs) refs)))
        end
    end.

(** [mwaardhtmlwriter.convert(obj)]: text, tags, language links. *)
Definition writer_convert (obj : node)
  : result (string * list string * list (string * string)) :=
  '(text, languagelinks) ← lift (write obj);
  Ok (text, [], languagelinks).

End Writer.

(** ** wiki.py: the wiki database and the article pipeline *)

(** The dictionary built by [load_filters]; an item of [REGEX] is the
    pair of a pattern and its substitute. *)
Record Filters := mkFilters {
  EXCLUDE_PAGES : list string;
  filter_EXCLUDE_CLASSES : list string;
  EXCLUDE_IDS : list string;
  REGEX : list (string * string);
}.

(** [class Wiki(WikiDB)]: the cdb reader ([reader[title]] raises KeyError
    on a missing title), the namespace handler, and the attributes set by
    [Wiki.__init__].  [redirect_aliases] is a Python set; the list is the
    order in which it is iterated. *)
Record Wiki := mkWiki {
  reader_getitem : string → lib_exn + option string;
  reader_getitem_size : string → lib_exn + Z;
  db_articles : list string;
  get_fqname : string → string;
  redirect_aliases : list string;
  rtl : bool;
  filters : Filters;
}.

(** The 5-tuple returned by [convert]: title, serialized payload,
    redirect flag, language links, size. *)
Definition conversion : Type :=
  string * string * bool * option (list (string * string)) * Z.

(** A positional argument of the call of the writer. *)
Inductive pyarg :=
| ArgNode (obj : node)
| ArgBool (b : bool)
| ArgFilters (f : Filters).

Section Pipeline.
Context `{Extern}.

(** [mkredirect(title, redirect_target)] *)
Definition mkredirect (title redirect_target : string)
  : string * string * bool * option (list (string * string)) :=
  let meta := JObject [("r", JString redirect_target)] in
  (title, tojson (JArray [JString ""; JArray []; meta]), true, None).

(** [Wiki.get_redirect] *)
Definition get_redirect (self : Wiki) (text : string)
  : result (option string) :=
  redirect ← parse_redirect text (redirect_aliases self);
  if Str.truthy redirect
  then Ok (Some (get_fqname self (default "" redirect)))
  else Ok redirect.

(** Binding the positional arguments [args] to the parameters of
    [def convert(obj)] of mwaardhtmlwriter.py: the interpreter raises
    TypeError, before the body runs, unless there is exactly one. *)
Definition call_writer_convert (args : list pyarg)
  : result (string * list string * list (string * string)) :=
  match args with
  | [ArgNode obj] => writer_convert obj
  | _ => Raise (LibError (TypeError "convert() takes exactly 1 argument"))
  end.

(** The loop over [wikidb.filters['REGEX']]. *)
Fixpoint apply_regex (items : list (string * string)) (text : string)
  : result string :=
  match items with
  | [] => Ok text
  | (re, sub) :: rest =>
      text ← lift (re_sub re sub text);
      apply_regex rest text
  end.

(** Lines 121 to 123 and 131 of [convert]: the text substitutions and
    the tuple returned for what the writer rendered. *)
Definition finish_article (wikidb : Wiki) (title : string)
    (rendered : string * list string * list (string * string)) (size : Z)
  : result conversion :=
  let '(text, tags, languagelinks) := rendered in
  text ← apply_regex (REGEX (filters wikidb)) text;
  Ok (title,
      tojson (JArray [JString (Str.rstrip text); JArray (JString <$> tags)]),
      false, Some languagelinks, size).

(** Lines 113 to 131 of [convert]: what happens to a text that is not
    empty and not a redirect. *)
Definition convert_article (wikidb : Wiki) (title text : string) (size : Z)
  : result conversion :=
  mwobject ← lift (parseString title text);
  rendered ←
    call_writer_convert
      [ArgNode mwobject; ArgBool (rtl wikidb); ArgFilters (filters wikidb)];
  finish_article wikidb title rendered size.

(** The body of the [try] of [convert], with the [else] clause. *)
Definition convert_try (wikidb : Wiki) (title : string) : result conversion :=
  text ← lift (reader_getitem wikidb title);
  size ← lift (reader_getitem_size wikidb title);
  if negb (Str.truthy text) then Raise (EmptyArticleError title)
  else
    let text := default "" text in
    redirect ← get_redirect wikidb text;
    if Str.truthy redirect
    then
      let '(t, s, r, l) := mkredirect title (default "" redirect) in
      Ok (t, s, r, l, size)
    else convert_article wikidb title text size.

(** [convert(title)]: the [except] clauses. *)
Definition convert (wikidb : Wiki) (title : string) : result conversion :=
  match convert_try wikidb title with
  | Ok r => Ok r
  | Raise (EmptyArticleError t) => Raise (EmptyArticleError t)
  | Raise _ => Raise (ConvertError title)
  end.

End Pipeline.

(** ** wiki.py: the batch scheduler *)

(** The calls received by the consumer, oldest first. *)
Inductive consumer_call :=
| add_metadata (key value : string)
| add_article (title serialized : string) (redirect count : bool)
              (size : option Z)
| empty_article (title : string)
| fail_article (title : string)
| timedout (count : nat).

(** The attributes of a [WikiParser] read by the two [parse] methods. *)
Record WikiParser := mkParser {
  lang_links_langs : gset string;
  requested_article_count : option Z;
  mp_chunk_size : nat;
  start : nat;
  end_ : option nat;
}.

(** [itertools.islice(l, start, stop)] *)
Definition islice {A} (l : list A) (start : nat) (stop : option nat) : list A :=
  match stop with
  | None => drop start l
  | Some stop => take (stop - start) (drop start l)
  end.

(** Truth value of an integer option ([None] and [0] are false). *)
Definition truthy_count (k : option Z) : bool :=
  match k with
  | Some k => negb (k =? 0)
  | None => false
  end.

(** What happened to the run of a [parse] method. *)
Inductive status :=
| Running
| Finished               (* the loop over the articles ended *)
| Returned               (* the [return] of the early termination *)
| Propagated (e : exn).  (* an exception no clause catches left the method *)

(** What [resulti.next(self.timeout)] can meet.  [Feed] is not a call of
    the scheduler: it is the pool's task thread taking the next title
    out of the iterable it was given. *)
Inductive pool_event :=
| Feed
| Answer (i : nat)          (* the outcome of the [i]-th task in flight *)
| NoAnswer (active : nat).  (* TimeoutError; [active] workers are alive *)

(** The local state of [parse_mp].  [articles] is the generator and
    [chunk] the [islice] object over it: both are one-shot iterators, and
    the [islice] shares the generator. *)
Record mp_state := mkState {
  articles : list string;     (* titles the generator has not yielded *)
  chunk : nat;                (* titles the [islice] may still yield *)
  inflight : list string;     (* tasks of [resulti] not yet retrieved *)
  iter_count : nat;
  real_article_count : Z;
  consumer : list consumer_call;
  run_status : status;
}.

Section Scheduler.
Context `{Extern}.
Variable convert : string → result conversion.
Variable wikidb : Wiki.
Variable self : WikiParser.

(** [WikiParser.articles] *)
Definition parser_articles : list string :=
  islice (db_articles wikidb) (start self) (end_ self).

(** The first loop of [process_languagelinks]: the set [targets]. *)
Fixpoint languagelink_targets (languagelinks : list (string * string))
    (targets : gset string) : result (gset string) :=
  match languagelinks with
  | [] => Ok targets
  | (namespace, target) :: rest =>
      if bool_decide (namespace ∈ lang_links_langs self) then
        let i := Str.find target (namespace +:+ ":") in
        if i >? -1 then
          let unqualified_target :=
            Str.slice_from target (Str.len namespace + 1) in
          match reader_getitem wikidb unqualified_target with
          | inr _ => languagelink_targets rest targets
          | inl (KeyError _) =>
              languagelink_targets rest ({[unqualified_target]} ∪ targets)
          | inl e => Raise (LibError e)
          end
        else languagelink_targets rest targets
      else languagelink_targets rest targets
  end.

(** [WikiParser.process_languagelinks]: the consumer calls it makes. *)
Definition process_languagelinks (title : string)
    (languagelinks : option (list (string * string)))
  : result (list consumer_call) :=
  match languagelinks with
  | None | Some [] => Ok []
  | Some languagelinks =>
      targets ← languagelink_targets languagelinks ∅;
      Ok ((fun target =>
             let '(l_title, l_serialized, _, _) :=
               mkredirect (get_fqname wikidb target) title in
             add_article l_title l_serialized true false None)
            <$> elements targets)
  end.

(** The body of the [try] of [parse_simple]: the consumer calls made,
    and the exception raised, if any. *)
Definition simple_try (log : list consumer_call) (a : string)
  : list consumer_call * option exn :=
  match convert a with
  | Ok (title, serialized, redirect, langugagelinks, size) =>
      let log :=
        log ++ [add_article title serialized redirect true (Some size)] in
      match process_languagelinks title langugagelinks with
      | Ok calls => (log ++ calls, None)
      | Raise e => (log, Some e)
      end
  | Raise e => (log, Some e)
  end.

(** One pass of the loop of [parse_simple]: the [try] and its two
    [except] clauses ([BadRedirect] is a [ConvertError]). *)
Definition simple_iteration (log : list consumer_call) (a : string)
  : list consumer_call * option exn :=
  match simple_try log a with
  | (log, None) => (log, None)
  | (log, Some (EmptyArticleError title)) =>
      (log ++ [empty_article title], None)
  | (log, Some (ConvertError title)) | (log, Some (BadRedirect title)) =>
      (log ++ [fail_article title], None)
  | (log, Some e) => (log, Some e)
  end.

Fixpoint simple_loop (articles : list string) (log : list consumer_call)
  : list consumer_call * status :=
  match articles with
  | [] => (log, Finished)
  | a :: rest =>
      match simple_iteration log a with
      | (log, None) => simple_loop rest log
      | (log, Some e) => (log, Propagated e)
      end
  end.

(** [WikiParser.parse_simple] *)
Definition parse_simple : list consumer_call * status :=
  simple_loop parser_articles [add_metadata "article_format" "html"].

(** *** parse_mp *)

Definition set_status (s : status) (st : mp_state) : mp_state :=
  mkState (articles st) (chunk st) (inflight st) (iter_count st)
    (real_article_count st) (consumer st) s.

Definition report (calls : list consumer_call) (st : mp_state) : mp_state :=
  mkState (articles st) (chunk st) (inflight st) (iter_count st)
    (real_article_count st) (consumer st ++ calls) (run_status st).

(** The iterable handed to [imap_unordered] has nothing more to give. *)
Definition chunk_exhausted (st : mp_state) : bool :=
  match chunk st, articles st with
  | S _, _ :: _ => false
  | _, _ => true
  end.

(** The top of the outer loop: a new [islice] and [iter_count = 0] when
    the previous chunk gave a result, [break] otherwise. *)
Definition next_chunk (st : mp_state) : mp_state :=
  match iter_count st with
  | O => set_status Finished st
  | S _ =>
      mkState (articles st) (mp_chunk_size self) [] 0
        (real_article_count st) (consumer st) (run_status st)
  end.

(** StopIteration: every task of [resulti] was retrieved and the
    iterable is exhausted.  The inner loop breaks, the pool is replaced
    and the outer loop goes round; a chunk that is empty from the start
    stops the iteration at once. *)
Definition drain (st : mp_state) : mp_state :=
  match run_status st, inflight st with
  | Running, [] =>
      if chunk_exhausted st then
        let st := next_chunk st in
        match run_status st with
        | Running => if chunk_exhausted st then next_chunk st else st
        | _ => st
        end
      else st
  | _, _ => st
  end.

Definition count_result (st : mp_state) : mp_state :=
  mkState (articles st) (chunk st) (inflight st) (S (iter_count st))
    (real_article_count st) (consumer st) (run_status st).

Definition count_article (st : mp_state) : mp_state :=
  mkState (articles st) (chunk st) (inflight st) (iter_count st)
    (real_article_count st + 1) (consumer st) (run_status st).

(** The body of the inner [try] once [resulti.next] has returned
    [result]: the new state, and the exception raised, if any. *)
Definition accept (result : conversion) (st : mp_state)
  : mp_state * option exn :=
  let '(title, serialized, redirect, langugagelinks, size) := result in
  let st := count_result st in
  let add := add_article title serialized redirect true (Some size) in
  if truthy_count (requested_article_count self) then
    if negb redirect then
      let st := report [add] (count_article st) in
      match process_languagelinks title langugagelinks with
      | Ok calls =>
          let st := report calls st in
          if real_article_count st
             >=? default 0 (requested_article_count self)
          then (set_status Returned st, None)
          else (st, None)
      | Raise e => (st, Some e)
      end
    else (st, None)
  else
    let st := report [add] st in
    match process_languagelinks title langugagelinks with
    | Ok calls => (report calls st, None)
    | Raise e => (st, Some e)
    end.

(** The [except] clauses of the inner [try] for the exceptions of the
    pipeline; any other exception leaves [parse_mp]. *)
Definition on_exception (st : mp_state) (e : exn) : mp_state :=
  match e with
  | EmptyArticleError title => report [empty_article title] st
  | ConvertError title | BadRedirect title =>
      report [fail_article title] st
  | LibError _ => set_status (Propagated e) st
  end.

(** One event of the pool met by the inner loop. *)
Definition step (st : mp_state) (ev : pool_event) : mp_state :=
  match run_status st with
  | Running =>
      match ev with
      | Feed =>
          match chunk st, articles st with
          | S k, a :: rest =>
              mkState rest k (inflight st ++ [a]) (iter_count st)
                (real_article_count st) (consumer st) (run_status st)
          | _, _ => st
          end
      | Answer i =>
          match inflight st !! i with
          | None => st
          | Some a =>
              let st := mkState (articles st) (chunk st)
                          (delete i (inflight st)) (iter_count st)
                          (real_article_count st) (consumer st)
                          (run_status st) in
              drain
                match convert a with
                | Ok result =>
                    match accept result st with
                    | (st, None) => st
                    | (st, Some e) => on_exception st e
                    end
                | Raise e => on_exception st e
                end
          end
      | NoAnswer active =>
          (* [reset_pool] terminates the workers; the new [resulti] is
             fed from the same [chunk] object *)
          drain (mkState (articles st) (chunk st) [] (iter_count st)
                   (real_article_count st)
                   (consumer st ++ [timedout active]) (run_status st))
      end
  | _ => st
  end.

(** The state in which the inner loop is entered for the first time. *)
Definition mp_init : mp_state :=
  drain (mkState parser_articles (mp_chunk_size self) [] 0 0
           [add_metadata "article_format" "html"] Running).

(** [WikiParser.parse_mp] under the pool events [schedule]. *)
Definition parse_mp (schedule : list pool_event) : mp_state :=
  fold_left step schedule mp_init.

End Scheduler.

(** ** wiki.py: site information, totals and language options *)

(** An entry of [siteinfo['magicwords']]. *)
Record magicword := mkMagicword {
  mw_name : string;
  mw_aliases : list string;
}.

(** The aliases of the magic word [redirect] in [Wiki.__init__]: element
    [0] of the list comprehension, an IndexError when there is none. *)
Definition siteinfo_aliases (magicwords : list magicword)
  : lib_exn + list string :=
  match List.filter (fun mw => String.eqb (mw_name mw) "redirect") magicwords
  with
  | [] => inl (OtherError "IndexError")
  | mw :: _ => inr (mw_aliases mw)
  end.

Section WikiInit.
Context `{Extern}.
(** [unicode.lower] *)
Variable lower : string → string.

(** The loop of [Wiki.__init__] that fills the set [redirect_aliases]. *)
Fixpoint add_aliases (aliases : list string) (redirect_aliases : gset string)
  : gset string :=
  match aliases with
  | [] => redirect_aliases
  | alias :: rest =>
      add_aliases rest
        ({[upper alias]}
           ∪ ({[lower alias]} ∪ ({[alias]} ∪ redirect_aliases)))
  end.

(** The set [self.redirect_aliases] after [Wiki.__init__]. *)
Definition init_redirect_aliases (magicwords : list magicword)
  : lib_exn + gset string :=
  match siteinfo_aliases magicwords with
  | inl e => inl e
  | inr aliases => inr (add_aliases aliases ∅)
  end.

End WikiInit.

(** [s.split(sep)] for a separator of one character. *)
Fixpoint split_sep_go (sep : ascii) (cur s : string) : list string :=
  match s with
  | EmptyString => [String.rev cur]
  | String c s' =>
      if Ascii.eqb c sep
      then String.rev cur :: split_sep_go sep EmptyString s'
      else split_sep_go sep (String c cur) s'
  end.

Definition split_sep (sep : ascii) (s : string) : list string :=
  split_sep_go sep EmptyString s.

(** The attribute [lang_links_langs] set by [WikiParser.__init__] from
    the option [lang_links] and the language of the site. *)
Definition init_lang_links_langs (lower : string → string)
    (lang_links : option string) (sitelang : string) : gset string :=
  if Str.truthy lang_links then
    list_to_set
      (List.filter (fun l => negb (String.eqb l sitelang))
         ((fun l => lower (Str.strip l))
            <$> split_sep ","%char (default "" lang_links)))
  else ∅.

Section Totals.
(** [reader.iteritems_sizes()] and [nshandler.splitname(a)[0]] *)
Variable iteritems_sizes : list (string * Z).
Variable nsnum : string → Z.

(** [Wiki.articles_sizes] *)
Definition articles_sizes : list (string * Z) :=
  List.filter (fun item => nsnum item.1 =? 0) iteritems_sizes.

(** The loop of [total], from the two counters before it to the pair
    returned. *)
Fixpoint total_loop (items : list (string * Z)) (articles total_bytes : Z)
  : Z * Z :=
  match items with
  | [] => (articles, total_bytes)
  | (article, size) :: rest =>
      total_loop rest (articles + 1) (total_bytes + size)
  end.

(** [total(inputfile, options)] once the wiki is open. *)
Definition total (start : nat) (end_ : option nat) : Z * Z :=
  total_loop (islice articles_sizes start end_) 0 0.

End Totals.

(** ** mwaardhtmlwriter.py: named links *)

Definition children (n : node) : list node :=
  match n with Node _ c => c end.

(** [XHTMLWriter.xwriteNamedURL]: the counter [self.namedLinkCount]
    after the call, and the element. *)
Definition xwriteNamedURL (caption : node → string) (namedLinkCount : nat)
    (obj : node) : nat * element :=
  match children obj with
  | [] =>
      (S namedLinkCount,
       Element "a" [("href", caption obj)]
         (Some ("[" +:+ pretty namedLinkCount +:+ "]")) None [])
  | _ => (namedLinkCount, Element "a" [("href", caption obj)] None None [])
  end.

(** The handler called on the named links of a document, in order. *)
Fixpoint write_named_urls (caption : node → string) (namedLinkCount : nat)
    (objs : list node) : nat * list element :=
  match objs with
  | [] => (namedLinkCount, [])
  | obj :: rest =>
      let '(count, a) := xwriteNamedURL caption namedLinkCount obj in
      let '(count, l) := write_named_urls caption count rest in
      (count, a :: l)
  end.

(** The references of a document registered in order. *)
Definition register_all (objs : list node) (self : XHTMLWriter)
  : XHTMLWriter :=
  fold_left (fun w obj => (xwriteReference w obj).1) objs self.

(** ** Sample data *)

(** [unicode.upper] on ASCII letters. *)
Definition ascii_upper_char (c : ascii) : ascii :=
  let n := nat_of_ascii c in
  if (97 <=? n)%nat && (n <=? 122)%nat then ascii_of_nat (n - 32) else c.

Fixpoint ascii_upper (s : string) : string :=
  match s with
  | EmptyString => EmptyString
  | String c s' => String (ascii_upper_char c) (ascii_upper s')
  end.

(** A compact rendering of a JSON value (no escapes). *)
Fixpoint sample_dumps (j : json) : string :=
  match j with
  | JString s => "'" +:+ s +:+ "'"
  | JArray l => "[" +:+ String.concat ", " (sample_dumps <$> l) +:+ "]"
  | JObject l =>
      "{" +:+ String.concat ", "
                ((fun kv => "'" +:+ kv.1 +:+ "': " +:+ sample_dumps kv.2) <$> l)
          +:+ "}"
  end.

(** Library functions that succeed on every input. *)
Definition sample_extern : Extern := {|
  upper := ascii_upper;
  tojson := sample_dumps;
  parseString := fun _ _ => inr (Node ∅ []);
  re_sub := fun _ _ text => inr text;
  base_xwriteTable := fun _ => Elem (Element "table" [] None None []);
  base_xwriteGenericElement := fun _ => Elem (Element "span" [] None None []);
  writeChildren := fun _ => [];
  write := fun _ => inr ("<div />", []);
|}.

(** The aliases of the docstring of [parse_redirect]. *)
Definition docstring_aliases : list string :=
  ["#PATRZ"; "#PRZEKIERUJ"; "#TAM"; "#REDIRECT"].

(** A database holding the titles and texts of [content], in that
    order. *)
Fixpoint content_lookup (content : list (string * string)) (title : string)
  : option string :=
  match content with
  | [] => None
  | (t, text) :: rest =>
      if String.eqb t title then Some text else content_lookup rest title
  end.

Definition sample_wiki (content : list (string * string)) : Wiki := {|
  reader_getitem := fun title =>
    match content_lookup content title with
    | Some text => inr (Some text)
    | None => inl (KeyError title)
    end;
  reader_getitem_size := fun title =>
    match content_lookup content title with
    | Some text => inr (Str.len text)
    | None => inl (KeyError title)
    end;
  db_articles := content.*1;
  get_fqname := fun name => name;
  redirect_aliases := ["#REDIRECT"; "#redirect"];
  rtl := false;
  filters := mkFilters [] [] [] [];
|}.

(** Two articles: [a] is empty, [b] redirects to [a]. *)
Definition two_articles : Wiki :=
  sample_wiki [("a", ""); ("b", "#REDIRECT [[a]]")].

(** Two redirects. *)
Definition two_redirects : Wiki :=
  sample_wiki [("a", "#REDIRECT [[c]]"); ("b", "#REDIRECT [[c]]")].

(** A redirect that is not closed, a redirect to nothing, and plain
    text. *)
Definition odd_articles : Wiki :=
  sample_wiki [("m", "#REDIRECT [[abc"); ("e", "#REDIRECT [[]]");
               ("n", "plain text")].

(** Nodes of a parse tree: references without and with a name or a
    group, a [<references/>] tag of the default group, and two tables. *)
Definition unnamed_ref : node := Node ∅ [].
Definition named_ref : node := Node {[ "name" := "x" ]} [].
Definition grouped_ref : node := Node {[ "group" := "a" ]} [].
Definition references_tag : node := Node ∅ [].


(** A pipeline stub that renders every title. *)
Definition rendering_stub (title : string) : result conversion :=
  Ok (title, "['', []]", false, Some [], Str.len title).

(** A pipeline stub for which [a] is empty and every other title is
    rendered. *)
Definition empty_a_stub (title : string) : result conversion :=
  if String.eqb title "a" then Raise (EmptyArticleError title)
  else rendering_stub title.

(** Two articles: [a] is empty, [b] is plain text. *)
Definition empty_then_plain : Wiki :=
  sample_wiki [("a", ""); ("b", "plain text")].

(** [unicode.lower] on ASCII letters. *)
Definition ascii_lower_char (c : ascii) : ascii :=
  let n := nat_of_ascii c in
  if (65 <=? n)%nat && (n <=? 90)%nat then ascii_of_nat (n + 32) else c.

Fixpoint ascii_lower (s : string) : string :=
  match s with
  | EmptyString => EmptyString
  | String c s' => String (ascii_lower_char c) (ascii_lower s')
  end.

(** Magic words of a site, with and without [redirect]. *)
Definition german_magicwords : list magicword :=
  [mkMagicword "img_right" ["right"; "rechts"];
   mkMagicword "redirect" ["#REDIRECT"; "#Weiterleitung"]].

Definition broken_magicwords : list magicword :=
  [mkMagicword "img_right" ["right"; "rechts"]].

(** A redirect followed by a template, among other pages. *)
Definition moved_page : Wiki :=
  sample_wiki [("Old", "#redirect  [[New title]] {{R from move}}");
               ("New title", "plain text")].

(** A sequential run that resolves the language links to German. *)
Definition german_links : WikiParser := mkParser {[ "de" ]} None 1 0 None.

(** The titles of a database with their sizes; the titles with a colon
    are not in the article namespace. *)
Definition sample_sizes : list (string * Z) :=
  [("a", 10); ("Talk:a", 7); ("b", 20); ("c", 5); ("User:d", 1)].

Definition sample_nsnum (title : string) : Z :=
  if 0 <=? Str.find title ":" then 1 else 0.

(** Pooled runs over the whole database, [size] titles to a chunk. *)
Definition pooled (size : nat) (count : option Z) : WikiParser :=
  mkParser ∅ count size 0 None.

(** ** Statements of the specification, in its own words *)

(** [sub] occurs in [s] at index [i]. *)
Definition occurs_at (s sub : string) (i : nat) : Prop :=
  ∃ pre post, s = pre +:+ sub +:+ post ∧ String.length pre = i.

(** The first occurrence of [sub] in [s] is at index [i]. *)
Definition first_at (s sub : string) (i : nat) : Prop :=
  occurs_at s sub i ∧ ∀ j, (j < i)%nat → ¬ occurs_at s sub j.

Definition lacks (s sub : string) : Prop := ∀ i, ¬ occurs_at s sub i.

(** [target] is what stands in [s] strictly between the offsets [b + 2]
    and [e]; nothing stands there when the second is not after the
    first. *)
Definition strictly_between (s : string) (b e : nat) (target : string) : Prop :=
  if decide (b + 2 ≤ e)%nat
  then ∃ pre post, s = pre +:+ target +:+ post
                   ∧ String.length pre = (b + 2)%nat
                   ∧ String.length (pre +:+ target) = e
  else target = "".

(** [ws] is made of white space only; [s] does not begin with white
    space. *)
Definition whitespace (ws : string) : Prop :=
  Forall (fun c => Str.isspace c = true) (String.list_ascii_of_string ws).

Definition no_leading_space (s : string) : Prop :=
  match s with
  | String c _ => Str.isspace c = false
  | EmptyString => True
  end.


(** The title a consumer call reports an outcome for: a counted
    addition, an empty article or a failed one. *)
Definition outcome_title (c : consumer_call) : option string :=
  match c with
  | add_article title _ _ true _ => Some title
  | empty_article title => Some title
  | fail_article title => Some title
  | _ => None
  end.

(** The titles reported, in the order of the reports. *)
Definition reported (log : list consumer_call) : list string :=
  omap outcome_title log.

(** The counted additions among the calls. *)
Definition is_counted_add (c : consumer_call) : bool :=
  match c with
  | add_article _ _ _ true _ => true
  | _ => false
  end.

Definition added (log : list consumer_call) : list consumer_call :=
  List.filter is_counted_add log.

(** ** Invariants of the pooled run *)

(** A counted addition is never a redirect. *)
Definition counted_is_article (c : consumer_call) : Prop :=
  match c with
  | add_article _ _ redirect true _ => redirect = false
  | _ => True
  end.

(** With a requested article count [K]: the counter is the number of
    counted additions, none of them a redirect, and it is below [K] as
    long as the run goes on. *)
Definition count_invariant (K : Z) (st : mp_state) : Prop :=
  real_article_count st = Z.of_nat (length (added (consumer st)))
  ∧ Forall counted_is_article (consumer st)
  ∧ match run_status st with
    | Running | Finished => real_article_count st < K
    | Returned => real_article_count st = K
    | Propagated _ => real_article_count st ≤ K
    end.

(** The run over [two_articles], one title to a chunk: nothing was
    reported for [b], no result was counted, and [b] is still in the
    stream unless [a] is in flight in the only chunk there will be. *)
Definition stuck_before_b (st : mp_state) : Prop :=
  ("b" ∉ reported (consumer st))
  ∧ iter_count st = 0%nat
  ∧ match run_status st with
    | Running =>
        (articles st = ["a"; "b"] ∧ chunk st = 1%nat ∧ inflight st = [])
        ∨ (articles st = ["b"] ∧ chunk st = 0%nat ∧ inflight st = ["a"])
    | Finished => articles st = ["b"]
    | _ => False
    end.

(** The same run with a requested article count: moreover, no
    addition was made. *)
Definition nothing_added_before_b (st : mp_state) : Prop :=
  added (consumer st) = [] ∧ stuck_before_b st.

(** ** Further invariants *)

(** The pipeline function answers for the title it was given. *)
Definition answers_for_title (convert : string → result conversion) : Prop :=
  ∀ a, match convert a with
       | Ok (title, _, _, _, _) => title = a
       | Raise e => ∀ t, exn_title e = Some t → t = a
       end.

(** Where the titles of a pooled run are: reported, in flight, or still
    in the stream. *)
Definition ledger (st : mp_state) : list string :=
  reported (consumer st) ++ inflight st ++ articles st.

(** The key under which [xwriteReference] files a reference: its name
    with spaces replaced, if it has a name. *)
Definition ref_key (obj : node) : option string :=
  if Str.truthy (attributes obj !! "name")
  then Some (Str.replace_char " "%char "_"%char
               (default "" (attributes obj !! "name")))
  else None.

(** Every named reference on record has a count of at least one and a
    first position that is the position, counted from one, of an entry of
    its group filed under that name. *)
Definition names_point_at_entries (self : XHTMLWriter) : Prop :=
  ∀ g m name first count,
    namedrefs self !! g = Some m →
    m !! name = Some (first, count) →
    (1 ≤ count)%nat ∧ (1 ≤ first)%nat
    ∧ ∃ refs obj, references self !! g = Some refs
                  ∧ refs !! (first - 1)%nat = Some obj
                  ∧ ref_key obj = Some name.

(** The language link [link] of an article makes [process_languagelinks]
    keep the target [u]: its language is one of the configured ones, its
    target names the language, and the database has no title [u]. *)
Definition kept_target (wikidb : Wiki) (self : WikiParser)
    (link : string * string) (u : string) : Prop :=
  link.1 ∈ lang_links_langs self
  ∧ -1 < Str.find link.2 (link.1 +:+ ":")
  ∧ u = Str.slice_from link.2 (Str.len link.1 + 1)
  ∧ ∃ key, reader_getitem wikidb u = inl (KeyError key).

(** The sum of the sizes of titles with their sizes. *)
Definition sizes_sum (items : list (string * Z)) : Z :=
  foldr (fun item acc => item.2 + acc) 0 items.

(** A node without children, and the text of an element. *)
Definition childless (obj : node) : bool :=
  match children obj with
  | [] => true
  | _ => false
  end.

Definition element_text (e : element) : option string :=
  match e with Element _ _ text _ _ => text end.

(** The characters of [s] other than [c]. *)
Definition without_char (c : ascii) (s : string) : Prop :=
  Forall (fun d => d ≠ c) (String.list_ascii_of_string s).

(** ** Facts about the string methods *)

Section StrFacts.
Implicit Types s p sub pre post : string.

Lemma app_nil p : "" +:+ p = p.
Proof. reflexivity. Qed.

Lemma app_cons c s p : String c s +:+ p = String c (s +:+ p).
Proof. reflexivity. Qed.

Lemma app_assoc_str s p post : (s +:+ p) +:+ post = s +:+ (p +:+ post).
Proof.
  induction s as [|c s IH]; [done|]. by rewrite !app_cons, IH.
Qed.

Lemma length_app_str s p :
  String.length (s +:+ p) = (String.length s + String.length p)%nat.
Proof.
  induction s as [|c s IH]; [done|]. rewrite app_cons. simpl. by rewrite IH.
Qed.

Lemma startswith_spec s p :
  Str.startswith s p = true ↔ ∃ post, s = p +:+ post.
Proof.
  revert s. induction p as [|c p IH]; intros s; simpl.
  - split; [intros _; by exists s | done].
  - destruct s as [|d s]; simpl.
    + split; [done | intros [post Hpost]; by rewrite app_cons in Hpost].
    + destruct (Ascii.eqb_spec d c) as [->|Hne].
      * rewrite IH. split; intros [post Hpost]; exists post;
          rewrite app_cons in *; congruence.
      * split; [done|]. intros [post Hpost].
        rewrite app_cons in Hpost. congruence.
Qed.

Lemma startswith_app p post : Str.startswith (p +:+ post) p = true.
Proof. apply startswith_spec. by exists post. Qed.

Lemma occurs_at_0 s sub : occurs_at s sub 0 ↔ Str.startswith s sub = true.
Proof.
  rewrite startswith_spec. split.
  - intros (pre & post & -> & Hlen). destruct pre; [|done]. by exists post.
  - intros [post ->]. by exists "", post.
Qed.

Lemma occurs_at_S c s sub i :
  occurs_at (String c s) sub (S i) ↔ occurs_at s sub i.
Proof.
  split.
  - intros (pre & post & Heq & Hlen). destruct pre as [|d pre]; [done|].
    rewrite app_cons in Heq. simpl in Hlen. exists pre, post.
    split; congruence.
  - intros (pre & post & -> & Hlen). exists (String c pre), post.
    rewrite app_cons. simpl. by rewrite Hlen.
Qed.

Lemma occurs_at_empty sub i : ¬ occurs_at "" sub (S i).
Proof. intros (pre & post & Heq & Hlen). by destruct pre. Qed.

(** [find] returns [-1] exactly when there is no occurrence, and the
    index of the first one otherwise. *)
Lemma find_from_cases s sub k :
  (Str.find_from s sub k = -1 ∧ lacks s sub)
  ∨ (∃ i, Str.find_from s sub k = k + Z.of_nat i ∧ first_at s sub i).
Proof.
  revert k. induction s as [|c s IH]; intros k; simpl.
  - destruct (Str.startswith "" sub) eqn:Hsw.
    + right. exists 0%nat. split; [lia|]. split; [by apply occurs_at_0 | lia].
    + left. split; [done|]. intros [|i]; [|apply occurs_at_empty].
      rewrite occurs_at_0. congruence.
  - destruct (Str.startswith (String c s) sub) eqn:Hsw.
    + right. exists 0%nat. split; [lia|]. split; [by apply occurs_at_0 | lia].
    + destruct (IH (k + 1)) as [[Hm Hl] | (i & Hi & Hocc & Hmin)].
      * left. split; [done|]. intros [|i]; [|rewrite occurs_at_S; apply Hl].
        rewrite occurs_at_0. congruence.
      * right. exists (S i). split; [lia|]. split; [by apply occurs_at_S|].
        intros [|j] Hj; [rewrite occurs_at_0; congruence|].
        rewrite occurs_at_S. apply Hmin. lia.
Qed.

Lemma first_at_unique s sub i j :
  first_at s sub i → first_at s sub j → i = j.
Proof.
  intros [Hi Hmi] [Hj Hmj].
  destruct (Nat.lt_trichotomy i j) as [Hlt | [-> | Hlt]]; [|done|].
  - by destruct (Hmj i Hlt).
  - by destruct (Hmi j Hlt).
Qed.

Lemma find_lacks s sub : lacks s sub → Str.find s sub = -1.
Proof.
  intros Hl. unfold Str.find.
  destruct (find_from_cases s sub 0) as [[Hm _] | (i & _ & Hocc & _)];
    [done | by destruct (Hl i)].
Qed.

Lemma find_first_at s sub i : first_at s sub i → Str.find s sub = Z.of_nat i.
Proof.
  intros Hi. unfold Str.find.
  destruct (find_from_cases s sub 0) as [[_ Hl] | (j & Hj & Hfj)].
  - destruct Hi as [Hocc _]. by destruct (Hl i).
  - rewrite Hj, (first_at_unique _ _ _ _ Hi Hfj). lia.
Qed.

Lemma take_drop_str n s : s = Str.take n s +:+ Str.drop n s.
Proof.
  revert s. induction n as [|n IH]; intros [|c s]; simpl; try done.
  by rewrite app_cons, <- IH.
Qed.

Lemma length_take_str n s :
  (n ≤ String.length s)%nat → String.length (Str.take n s) = n.
Proof.
  revert s. induction n as [|n IH]; intros [|c s]; simpl; try done; try lia.
  intros Hle. rewrite IH; lia.
Qed.

Lemma length_drop_str n s :
  String.length (Str.drop n s) = (String.length s - n)%nat.
Proof.
  revert s. induction n as [|n IH]; intros [|c s]; simpl; try done.
Qed.

Lemma occurs_at_length s sub i :
  occurs_at s sub i → (i + String.length sub ≤ String.length s)%nat.
Proof.
  intros (pre & post & -> & <-). rewrite !length_app_str. lia.
Qed.

(** A Python slice [s[b+2:e]] is what stands strictly between the two
    offsets. *)
Lemma slice_strictly_between s (b e : nat) :
  (e ≤ String.length s)%nat →
  strictly_between s b e (Str.slice s (Z.of_nat b + 2) (Z.of_nat e)).
Proof.
  intros He. unfold strictly_between, Str.slice.
  replace (Z.to_nat (Z.of_nat b + 2)) with (b + 2)%nat by lia.
  destruct (decide (b + 2 ≤ e)%nat) as [Hle|Hgt].
  - replace (Z.to_nat (Z.of_nat e - (Z.of_nat b + 2)))
      with (e - (b + 2))%nat by lia.
    set (rest := Str.drop (b + 2) s).
    exists (Str.take (b + 2) s), (Str.drop (e - (b + 2)) rest).
    assert (Hpre : String.length (Str.take (b + 2) s) = (b + 2)%nat)
      by (apply length_take_str; lia).
    split; [|split; [done|]].
    + rewrite <- take_drop_str. apply take_drop_str.
    + rewrite length_app_str, Hpre, length_take_str; [lia|].
      unfold rest. rewrite length_drop_str. lia.
  - replace (Z.to_nat (Z.of_nat e - (Z.of_nat b + 2))) with 0%nat by lia.
    by destruct (Str.drop (b + 2) s).
Qed.

Lemma find_absent s sub : Str.find s sub = -1 → lacks s sub.
Proof.
  unfold Str.find. intros Hf.
  destruct (find_from_cases s sub 0) as [[_ Hl] | (i & Hi & _)]; [done | lia].
Qed.

Lemma find_present s sub i : Str.find s sub = Z.of_nat i → first_at s sub i.
Proof.
  unfold Str.find. intros Hf.
  destruct (find_from_cases s sub 0) as [[Hm _] | (j & Hj & Hfj)]; [lia|].
  by replace i with j by lia.
Qed.

Lemma drop_app_str p post : Str.drop (String.length p) (p +:+ post) = post.
Proof. induction p as [|c p IH]; [done|]. by rewrite app_cons. Qed.

(** [lstrip] removes a prefix of white space, and all of it. *)
Lemma lstrip_spec s :
  ∃ ws, s = ws +:+ Str.lstrip s ∧ whitespace ws
        ∧ no_leading_space (Str.lstrip s).
Proof.
  induction s as [|c s (ws & Heq & Hws & Hnl)]; simpl.
  - exists "". repeat split. constructor.
  - destruct (Str.isspace c) eqn:Hc.
    + exists (String c ws). rewrite app_cons, <- Heq.
      repeat split; [|done]. by constructor.
    + exists "". repeat split; [constructor | done].
Qed.

End StrFacts.

(** ** The redirect resolver *)

Section RedirectFacts.
Context `{Extern}.

Lemma parse_redirect_skip text pre rest :
  (∀ a, a ∈ pre → alias_matches text a = false) →
  parse_redirect text (pre ++ rest) = parse_redirect text rest.
Proof.
  induction pre as [|a pre IH]; intros Hpre; [done|]. simpl.
  pose proof (Hpre a (list_elem_of_here _ _)) as Ha.
  unfold alias_matches in Ha. rewrite Ha.
  apply IH. intros a' Ha'. apply Hpre. by apply list_elem_of_further.
Qed.

Lemma parse_redirect_no_match text aliases :
  (∀ a, a ∈ aliases → alias_matches text a = false) →
  parse_redirect text aliases = Ok None.
Proof.
  intros Hno. rewrite <- (app_nil_r aliases).
  by rewrite parse_redirect_skip.
Qed.

Lemma parse_redirect_bad text alias post :
  alias_matches text alias = true →
  let rest := Str.lstrip (Str.slice_from text (Str.len alias)) in
  lacks rest "[[" ∨ lacks rest "]]" →
  parse_redirect text (alias :: post) = Raise (BadRedirect rest).
Proof.
  intros Hm rest Hlacks. simpl. unfold alias_matches in Hm. rewrite Hm.
  fold rest. destruct Hlacks as [Hl | Hl].
  - by rewrite (find_lacks _ _ Hl).
  - rewrite (find_lacks _ "]]" Hl).
    by destruct (Str.find rest "[[" <? 0).
Qed.

Lemma parse_redirect_target text alias post b e :
  alias_matches text alias = true →
  let rest := Str.lstrip (Str.slice_from text (Str.len alias)) in
  first_at rest "[[" b → first_at rest "]]" e →
  parse_redirect text (alias :: post)
  = Ok (Some (Str.slice rest (Z.of_nat b + 2) (Z.of_nat e))).
Proof.
  intros Hm rest Hb He. simpl. unfold alias_matches in Hm. rewrite Hm.
  fold rest. rewrite (find_first_at _ _ _ Hb), (find_first_at _ _ _ He).
  destruct (Z.ltb_spec (Z.of_nat b) 0); [lia|].
  destruct (Z.ltb_spec (Z.of_nat e) 0); [lia|]. done.
Qed.

(** C3. [parse_redirect] answers [None] when no alias is a prefix of
    the text or of its upper-cased form.  Otherwise the first alias that
    matches decides: it and the white space after it are removed, a
    remainder without an opening or without a closing pair of brackets
    raises [BadRedirect] carrying the remainder, and else the target is
    what stands strictly between the first opening pair and the first
    closing pair.  With [#REDIRECT] the first alias to match,
    [#REDIRECT [[Target]]] gives [Target]. *)
Theorem parse_redirect_spec (text : string) (aliases : list string) :
  ((∀ a, a ∈ aliases → alias_matches text a = false) →
     parse_redirect text aliases = Ok None)
  ∧ (∀ pre alias post,
       aliases = pre ++ alias :: post →
       (∀ a, a ∈ pre → alias_matches text a = false) →
       alias_matches text alias = true →
       let rest := Str.lstrip (Str.slice_from text (Str.len alias)) in
       (∀ tail, text = alias +:+ tail →
          ∃ ws, tail = ws +:+ rest ∧ whitespace ws
                ∧ no_leading_space rest)
       ∧ (lacks rest "[[" ∨ lacks rest "]]" →
            parse_redirect text aliases = Raise (BadRedirect rest))
       ∧ (∀ b e, first_at rest "[[" b → first_at rest "]]" e →
            ∃ target, parse_redirect text aliases = Ok (Some target)
                      ∧ strictly_between rest b e target))
  ∧ (∀ pre post,
       aliases = pre ++ "#REDIRECT" :: post →
       (∀ a, a ∈ pre → alias_matches "#REDIRECT [[Target]]" a = false) →
       parse_redirect "#REDIRECT [[Target]]" aliases = Ok (Some "Target")).
Proof.
  split; [apply parse_redirect_no_match|]. split.
  - intros pre alias post -> Hpre Hm rest. split; [|split].
    + intros tail ->. subst rest. unfold Str.slice_from, Str.len.
      rewrite Nat2Z.id, drop_app_str. apply lstrip_spec.
    + intros Hlacks. rewrite parse_redirect_skip by done.
      by apply parse_redirect_bad.
    + intros b e Hb He. eexists. split.
      * rewrite parse_redirect_skip by done.
        by apply parse_redirect_target.
      * apply slice_strictly_between.
        destruct He as [He _]. apply occurs_at_length in He.
        unfold rest in *. lia.
  - intros pre post -> Hpre. by rewrite parse_redirect_skip.
Qed.

End RedirectFacts.

Ltac no_alias_matches :=
  let a := fresh "a" in
  let Ha := fresh "Ha" in
  intros a Ha;
  repeat (apply elem_of_cons in Ha as [->|Ha]; [reflexivity|]);
  by apply elem_of_nil in Ha.

Lemma parse_redirect_spec_witness :
  parse_redirect (H := sample_extern) "plain text" docstring_aliases = Ok None
  ∧ parse_redirect (H := sample_extern) "#REDIRECT [[Target" docstring_aliases
    = Raise (BadRedirect "[[Target")
  ∧ (∃ target,
       parse_redirect (H := sample_extern) "#tam  [[Zmora]]" docstring_aliases
       = Ok (Some target)
       ∧ strictly_between "[[Zmora]]" 0 7 target)
  ∧ parse_redirect (H := sample_extern) "#REDIRECT [[Target]]"
      docstring_aliases
    = Ok (Some "Target").
Proof.
  split; [|split; [|split]].
  - apply (proj1 (parse_redirect_spec (H := sample_extern)
                    "plain text" docstring_aliases)).
    no_alias_matches.
  - destruct (proj1 (proj2 (parse_redirect_spec (H := sample_extern)
                              "#REDIRECT [[Target" docstring_aliases))
                ["#PATRZ"; "#PRZEKIERUJ"; "#TAM"] "#REDIRECT" [] eq_refl)
      as (_ & Hbad & _); [no_alias_matches | reflexivity |].
    apply Hbad. right. by apply find_absent.
  - destruct (proj1 (proj2 (parse_redirect_spec (H := sample_extern)
                              "#tam  [[Zmora]]" docstring_aliases))
                ["#PATRZ"; "#PRZEKIERUJ"] "#TAM" ["#REDIRECT"] eq_refl)
      as (_ & _ & Htarget); [no_alias_matches | reflexivity |].
    apply (Htarget 0%nat 7%nat); by apply find_present.
  - apply (proj2 (proj2 (parse_redirect_spec (H := sample_extern)
                           "#REDIRECT [[Target]]" docstring_aliases))
             ["#PATRZ"; "#PRZEKIERUJ"; "#TAM"] []); [done|].
    no_alias_matches.
Defined.

(** ** The article pipeline *)

Section PipelineFacts.
Context `{Extern}.

Lemma parse_redirect_raises text aliases e :
  parse_redirect text aliases = Raise e → ∃ rest, e = BadRedirect rest.
Proof.
  induction aliases as [|alias aliases IH]; simpl; [done|].
  destruct (_ || _); [|done].
  repeat case_match; intros [= <-]; eauto.
Qed.

Lemma get_redirect_raises wikidb text e :
  get_redirect wikidb text = Raise e → ∃ rest, e = BadRedirect rest.
Proof.
  unfold get_redirect.
  destruct (parse_redirect text (redirect_aliases wikidb)) as [r|e'] eqn:Hp;
    simpl.
  - by destruct (Str.truthy r).
  - intros [= <-]. by eapply parse_redirect_raises.
Qed.

(** The writer is entered with three arguments and takes one: the call
    at line 119 of wiki.py never reaches its body. *)
Lemma writer_call_fails wikidb mwobject :
  ∃ msg,
    call_writer_convert
      [ArgNode mwobject; ArgBool (rtl wikidb); ArgFilters (filters wikidb)]
    = Raise (LibError (TypeError msg)).
Proof. by eexists. Qed.

Lemma convert_article_raises wikidb title text size :
  ∃ e, convert_article wikidb title text size = Raise (LibError e).
Proof.
  unfold convert_article.
  destruct (parseString title text) as [e|mwobject]; simpl; by eexists.
Qed.

(** What the body of the [try] can raise, and when. *)
Lemma convert_try_raises wikidb title e :
  convert_try wikidb title = Raise e →
  (e = EmptyArticleError title
   ∧ ∃ text, reader_getitem wikidb title = inr text
             ∧ Str.truthy text = false)
  ∨ (∃ rest, e = BadRedirect rest)
  ∨ (∃ le, e = LibError le).
Proof.
  unfold convert_try.
  destruct (reader_getitem wikidb title) as [le|text] eqn:Hr; simpl;
    [intros [= <-]; eauto|].
  destruct (reader_getitem_size wikidb title) as [le|size]; simpl;
    [intros [= <-]; eauto|].
  destruct (Str.truthy text) eqn:Ht; simpl; [|intros [= <-]; eauto].
  destruct (get_redirect wikidb (default "" text)) as [r|e'] eqn:Hg; simpl.
  - destruct (Str.truthy r); [done|].
    destruct (convert_article_raises wikidb title (default "" text) size)
      as [le ->]. intros [= <-]; eauto.
  - intros [= <-]. right; left. by eapply get_redirect_raises.
Qed.

(** What [convert] itself can raise. *)
Lemma convert_raises wikidb title e :
  convert wikidb title = Raise e →
  (e = EmptyArticleError title
   ∧ ∃ text, reader_getitem wikidb title = inr text
             ∧ Str.truthy text = false)
  ∨ e = ConvertError title.
Proof.
  unfold convert.
  destruct (convert_try wikidb title) as [r|e'] eqn:Ht; [done|].
  destruct (convert_try_raises _ _ _ Ht)
    as [[-> Hempty] | [[rest ->] | [le ->]]];
    intros [= <-]; eauto.
Qed.

(** C4. A title whose fetched text is empty or [None] makes [convert]
    raise [EmptyArticleError]; whatever else is raised while the
    redirect is parsed, the tree built or the article rendered, a
    [BadRedirect] included, leaves [convert] as a [ConvertError] that
    carries the title. *)
Theorem convert_error_taxonomy (wikidb : Wiki) (title : string) :
  (∀ text size,
     reader_getitem wikidb title = inr text →
     reader_getitem_size wikidb title = inr size →
     Str.truthy text = false →
     convert wikidb title = Raise (EmptyArticleError title))
  ∧ (∀ e, convert wikidb title = Raise e →
          (e = EmptyArticleError title
           ∧ ∃ text, reader_getitem wikidb title = inr text
                     ∧ Str.truthy text = false)
          ∨ e = ConvertError title)
  ∧ (∀ e, convert_try wikidb title = Raise e →
          e ≠ EmptyArticleError title →
          convert wikidb title = Raise (ConvertError title))
  ∧ (∀ text size rest,
       reader_getitem wikidb title = inr (Some text) →
       reader_getitem_size wikidb title = inr size →
       Str.truthy (Some text) = true →
       parse_redirect text (redirect_aliases wikidb)
       = Raise (BadRedirect rest) →
       convert wikidb title = Raise (ConvertError title)).
Proof.
  split; [|split; [|split]].
  - intros text size Hr Hs Ht. unfold convert, convert_try.
    rewrite Hr, Hs. simpl. by rewrite Ht.
  - apply convert_raises.
  - intros e Ht Hne. unfold convert. rewrite Ht.
    destruct (convert_try_raises _ _ _ Ht)
      as [[-> _] | [[rest ->] | [le ->]]]; done.
  - intros text size rest Hr Hs Ht Hp. unfold convert, convert_try.
    rewrite Hr, Hs. destruct text as [|c text]; [done|]. simpl.
    unfold get_redirect. simpl in Hp. by rewrite Hp.
Qed.

Lemma lstrip_whitespace ws rest :
  whitespace ws → no_leading_space rest → Str.lstrip (ws +:+ rest) = rest.
Proof.
  intros Hws Hnl. induction ws as [|c ws IH].
  - rewrite app_nil. destruct rest as [|d rest]; [done|]. simpl in *.
    by rewrite Hnl.
  - apply Forall_cons in Hws as [Hc Hws]. rewrite app_cons. simpl.
    rewrite Hc. by apply IH.
Qed.

(** What becomes of a text handed to the parser: the exception of the
    parser or, with a tree, the TypeError of the call of the renderer,
    which is given three arguments and takes one. *)
Lemma convert_article_outcome wikidb title text size :
  convert_article wikidb title text size
  = match parseString title text with
    | inl e => Raise (LibError e)
    | inr _ =>
        Raise (LibError (TypeError "convert() takes exactly 1 argument"))
    end.
Proof. unfold convert_article. by destruct (parseString title text). Qed.

(** C9, on the code.  A text made of a redirect alias (the first one
    to match), white space and an empty pair of brackets parses to the
    empty string; [get_redirect] hands the empty string back, which is
    false, so [convert] builds no redirect record and hands the text
    to the parser, as it does for a normal article.  The article is
    not rendered: the exception of the parser ends the [try], and so
    does, when the parser answers a tree, the TypeError of the call of
    the renderer with three arguments; [convert] raises [ConvertError]
    with the title. *)
Theorem empty_target_article_is_not_rendered (wikidb : Wiki)
    (title pre_alias ws tail : string) (pre post : list string) (size : Z) :
  let text := pre_alias +:+ ws +:+ "[[]]" +:+ tail in
  redirect_aliases wikidb = pre ++ pre_alias :: post →
  (∀ a, a ∈ pre → alias_matches text a = false) →
  whitespace ws →
  reader_getitem wikidb title = inr (Some text) →
  reader_getitem_size wikidb title = inr size →
  parse_redirect text (redirect_aliases wikidb) = Ok (Some "")
  ∧ get_redirect wikidb text = Ok (Some "")
  ∧ convert_try wikidb title
    = match parseString title text with
      | inl e => Raise (LibError e)
      | inr _ =>
          Raise (LibError (TypeError "convert() takes exactly 1 argument"))
      end
  ∧ convert wikidb title = Raise (ConvertError title).
Proof.
  intros text Hal Hpre Hws Hr Hs.
  assert (Hp : parse_redirect text (redirect_aliases wikidb) = Ok (Some "")).
  { rewrite Hal, parse_redirect_skip by done.
    assert (Hm : alias_matches text pre_alias = true).
    { unfold alias_matches, text. by rewrite startswith_app. }
    assert (Hrest : Str.lstrip (Str.slice_from text (Str.len pre_alias))
                    = "[[]]" +:+ tail).
    { unfold Str.slice_from, Str.len, text.
      rewrite Nat2Z.id, drop_app_str. by apply lstrip_whitespace. }
    rewrite (parse_redirect_target text pre_alias post 0 2 Hm);
      rewrite Hrest; [done | |]; by apply find_present. }
  assert (Hg : get_redirect wikidb text = Ok (Some "")).
  { unfold get_redirect. by rewrite Hp. }
  split; [done|]. split; [done|].
  assert (Ht : convert_try wikidb title
               = convert_article wikidb title text size).
  { unfold convert_try. rewrite Hr, Hs. simpl.
    assert (Htruthy : Str.truthy (Some text) = true).
    { unfold text. destruct pre_alias; [destruct ws|]; done. }
    simpl in Htruthy. rewrite Htruthy. simpl. by rewrite Hg. }
  rewrite convert_article_outcome in Ht.
  split; [done|]. unfold convert. rewrite Ht.
  by destruct (parseString title text).
Qed.


End PipelineFacts.

Lemma convert_error_taxonomy_witness :
  convert (H := sample_extern) two_articles "a" = Raise (EmptyArticleError "a")
  ∧ ((EmptyArticleError "a" = EmptyArticleError "a"
      ∧ ∃ text, reader_getitem two_articles "a" = inr text
                ∧ Str.truthy text = false)
     ∨ EmptyArticleError "a" = ConvertError "a")
  ∧ convert (H := sample_extern) odd_articles "n" = Raise (ConvertError "n")
  ∧ convert (H := sample_extern) odd_articles "m" = Raise (ConvertError "m").
Proof.
  split; [|split; [|split]].
  - by apply (proj1 (convert_error_taxonomy (H := sample_extern)
                       two_articles "a") (Some "") 0).
  - by apply (proj1 (proj2 (convert_error_taxonomy (H := sample_extern)
                              two_articles "a"))).
  - by apply (proj1 (proj2 (proj2 (convert_error_taxonomy
                                     (H := sample_extern) odd_articles "n")))
                (LibError (TypeError "convert() takes exactly 1 argument"))).
  - by apply (proj2 (proj2 (proj2 (convert_error_taxonomy
                                     (H := sample_extern) odd_articles "m")))
                "#REDIRECT [[abc" 15 "[[abc").
Defined.

Lemma empty_target_article_is_not_rendered_witness :
  parse_redirect (H := sample_extern) "#REDIRECT [[]]"
    (redirect_aliases odd_articles) = Ok (Some "")
  ∧ get_redirect (H := sample_extern) odd_articles "#REDIRECT [[]]"
    = Ok (Some "")
  ∧ convert_try (H := sample_extern) odd_articles "e"
    = Raise (LibError (TypeError "convert() takes exactly 1 argument"))
  ∧ convert (H := sample_extern) odd_articles "e" = Raise (ConvertError "e").
Proof.
  apply (empty_target_article_is_not_rendered (H := sample_extern)
           odd_articles "e" "#REDIRECT" " " "" [] ["#redirect"] 14 eq_refl);
    [no_alias_matches | repeat constructor | reflexivity | reflexivity].
Defined.


(** ** The renderer: content filter and reference tracker *)

Section WriterFacts.
Context `{Extern}.



End WriterFacts.



Section ReferenceFacts.
Context `{Extern}.

(** Nothing was registered at all: the list renders to nothing. *)
Lemma reference_list_of_new_writer t :
  xwriteReferenceList new_writer t = Ok (new_writer, None).
Proof. done. Qed.

(** The group has an entry, and it is empty: nothing is rendered and
    the entry is consumed. *)
Lemma reference_list_empty_entry self t :
  references self !! default "" (attributes t !! "group") = Some [] →
  ∃ self', xwriteReferenceList self t = Ok (self', None).
Proof.
  intros Hg. unfold xwriteReferenceList.
  case_bool_decide as Hempty; [by eexists|]. rewrite Hg. by eexists.
Qed.

(** The group has no entry while another group has one: [pop] raises. *)
Lemma reference_list_missing_group self t :
  references self ≠ ∅ →
  references self !! default "" (attributes t !! "group") = None →
  xwriteReferenceList self t
  = Raise (LibError (KeyError (default "" (attributes t !! "group")))).
Proof.
  intros Hne Hg. unfold xwriteReferenceList.
  case_bool_decide as Hempty; [done|]. by rewrite Hg.
Qed.

(** C5, on the code.  After one reference of group [a], the reference
    list of the default group, for which nothing was collected, is not
    rendered to nothing: the lookup fails with KeyError. *)
Theorem reference_list_of_absent_group_raises :
  xwriteReferenceList (xwriteReference new_writer grouped_ref).1
    references_tag
  = Raise (LibError (KeyError "")).
Proof.
  apply reference_list_missing_group; [|done].
  intros Hempty. apply (f_equal (fun m => m !! "a")) in Hempty.
  by vm_compute in Hempty.
Qed.

(** C6. An unnamed reference is appended to the list of its group and
    numbered with its position, counted from one; so is a named
    reference registered for the first time, whose name then stands
    for that number with count one; a later registration under the
    name appends nothing, takes the recorded number and adds one to
    the count, and the id of its marker ends with the count before
    the addition.  In each case the handler returns, with its
    children skipped, an [a] element without children and without
    tail whose attributes are, in this order, the [id] of the
    marker, [href] with a number sign and [onClick] with the call of
    [s] on the note id [_n] + group + [_] + number, and whose text is
    the group and the number, joined by a space, stripped and set in
    square brackets.  From a new writer, two unnamed references of the
    default group are numbered 1 and 2 and marked [[1]] and [[2]],
    and a reference named [x] registered twice is numbered 1 both
    times while the count goes from 1 to 2 and the ids of its
    markers end in [_0] and [_1]. *)
Theorem reference_numbering (self : XHTMLWriter) (obj : node) :
  let group := default "" (attributes obj !! "group") in
  let refs := default [] (references self !! group) in
  let named := default ∅ (namedrefs self !! group) in
  let name :=
    Str.replace_char " " "_" (default "" (attributes obj !! "name")) in
  let self' := (xwriteReference self obj).1 in
  let n := S (length refs) in
  let noteid := λ num : nat, "_n" +:+ group +:+ "_" +:+ pretty num in
  let label := λ num : nat,
    Some ("[" +:+ Str.strip (group +:+ " " +:+ pretty num) +:+ "]") in
  let onclick := λ num : nat, "return s('" +:+ noteid num +:+ "')" in
  (Str.truthy (attributes obj !! "name") = false →
     references self' !! group = Some (refs ++ [obj])
     ∧ (refs ++ [obj]) !! (n - 1)%nat = Some obj
     ∧ length (refs ++ [obj]) = n
     ∧ namedrefs self' = namedrefs self
     ∧ (xwriteReference self obj).2
       = SkipChildren
           (Some (Element "a"
                    [("id", "_r" +:+ noteid n); ("href", "#");
                     ("onClick", onclick n)]
                    (label n) None [])))
  ∧ (Str.truthy (attributes obj !! "name") = true →
     named !! name = None →
     references self' !! group = Some (refs ++ [obj])
     ∧ (refs ++ [obj]) !! (n - 1)%nat = Some obj
     ∧ length (refs ++ [obj]) = n
     ∧ default ∅ (namedrefs self' !! group) !! name = Some (n, 1%nat)
     ∧ (xwriteReference self obj).2
       = SkipChildren
           (Some (Element "a"
                    [("id", "_r" +:+ noteid n +:+ "_" +:+ pretty 0%nat);
                     ("href", "#"); ("onClick", onclick n)]
                    (label n) None [])))
  ∧ (∀ first count,
       Str.truthy (attributes obj !! "name") = true →
       named !! name = Some (first, count) →
       references self' !! group = Some refs
       ∧ default ∅ (namedrefs self' !! group) !! name
         = Some (first, S count)
       ∧ (xwriteReference self obj).2
         = SkipChildren
             (Some (Element "a"
                      [("id", "_r" +:+ noteid first +:+ "_"
                              +:+ pretty count);
                       ("href", "#"); ("onClick", onclick first)]
                      (label first) None [])))
  ∧ (let w1 := xwriteReference new_writer unnamed_ref in
     let w2 := xwriteReference w1.1 unnamed_ref in
     w1.2 = SkipChildren
              (Some (Element "a"
                       [("id", "_r_n_1"); ("href", "#");
                        ("onClick", "return s('_n_1')")]
                       (Some "[1]") None []))
     ∧ w2.2 = SkipChildren
                (Some (Element "a"
                         [("id", "_r_n_2"); ("href", "#");
                          ("onClick", "return s('_n_2')")]
                         (Some "[2]") None [])))
  ∧ (let w1 := xwriteReference new_writer named_ref in
     let w2 := xwriteReference w1.1 named_ref in
     w1.2 = SkipChildren
              (Some (Element "a"
                       [("id", "_r_n_1_0"); ("href", "#");
                        ("onClick", "return s('_n_1')")]
                       (Some "[1]") None []))
     ∧ namedrefs w1.1 !! "" = Some {[ "x" := (1%nat, 1%nat) ]}
     ∧ w2.2 = SkipChildren
                (Some (Element "a"
                         [("id", "_r_n_1_1"); ("href", "#");
                          ("onClick", "return s('_n_1')")]
                         (Some "[1]") None []))
     ∧ namedrefs w2.1 !! "" = Some {[ "x" := (1%nat, 2%nat) ]}).
Proof.
  intros group refs named name self' n noteid label onclick.
  assert (Hlast : (refs ++ [obj]) !! (n - 1)%nat = Some obj).
  { subst n. replace (S (length refs) - 1)%nat with (length refs) by lia.
    by rewrite lookup_app_r, Nat.sub_diag. }
  assert (Hlen : length (refs ++ [obj]) = n).
  { rewrite length_app. simpl. lia. }
  split; [|split; [|split; [|split]]].
  - intros Hname. subst self'. unfold xwriteReference, defaultdict_getitem.
    fold group. rewrite Hname. subst refs.
    destruct (references self !! group) as [l|] eqn:Hl; simpl;
      rewrite ?lookup_insert_eq, ?length_app; simpl;
      rewrite ?Nat.add_1_r; done.
  - intros Hname Hnone. subst self'.
    unfold xwriteReference, defaultdict_getitem.
    fold group. rewrite Hname. fold name. subst refs named.
    destruct (references self !! group) as [l|] eqn:Hl;
      destruct (namedrefs self !! group) as [m|] eqn:Hm; simpl in *;
      rewrite Hnone; simpl;
      rewrite ?lookup_insert_eq, ?length_app; simpl;
      rewrite ?lookup_insert_eq, ?Nat.add_1_r; done.
  - intros first count Hname Hseen. subst self'.
    unfold xwriteReference, defaultdict_getitem.
    fold group. rewrite Hname. fold name. subst refs named.
    destruct (references self !! group) as [l|] eqn:Hl;
      destruct (namedrefs self !! group) as [m|] eqn:Hm; simpl in *;
      try done; rewrite Hseen; simpl;
      rewrite ?lookup_insert_eq; simpl; rewrite ?lookup_insert_eq; done.
  - by vm_compute.
  - by vm_compute.
Qed.

End ReferenceFacts.

Lemma reference_numbering_witness :
  (references (xwriteReference new_writer unnamed_ref).1 !! ""
   = Some [unnamed_ref]
   ∧ (xwriteReference new_writer unnamed_ref).2
     = SkipChildren
         (Some (Element "a"
                  [("id", "_r_n_1"); ("href", "#");
                   ("onClick", "return s('_n_1')")]
                  (Some "[1]") None [])))
  ∧ (default ∅ (namedrefs (xwriteReference new_writer named_ref).1 !! "")
       !! "x"
     = Some (1%nat, 1%nat)
     ∧ (xwriteReference new_writer named_ref).2
       = SkipChildren
           (Some (Element "a"
                    [("id", "_r_n_1_0"); ("href", "#");
                     ("onClick", "return s('_n_1')")]
                    (Some "[1]") None [])))
  ∧ (default ∅
       (namedrefs
          (xwriteReference (xwriteReference new_writer named_ref).1
             named_ref).1
        !! "") !! "x"
     = Some (1%nat, 2%nat)
     ∧ (xwriteReference (xwriteReference new_writer named_ref).1
          named_ref).2
       = SkipChildren
           (Some (Element "a"
                    [("id", "_r_n_1_1"); ("href", "#");
                     ("onClick", "return s('_n_1')")]
                    (Some "[1]") None [])))
  ∧ (references (xwriteReference new_writer grouped_ref).1 !! "a"
     = Some [grouped_ref]
     ∧ (xwriteReference new_writer grouped_ref).2
       = SkipChildren
           (Some (Element "a"
                    [("id", "_r_na_1"); ("href", "#");
                     ("onClick", "return s('_na_1')")]
                    (Some "[a 1]") None []))).
Proof.
  split; [|split; [|split]].
  - pose proof (proj1 (reference_numbering new_writer unnamed_ref) eq_refl)
      as (Hrefs & _ & _ & _ & Hmarker).
    split; [exact Hrefs | exact Hmarker].
  - pose proof (proj1 (proj2 (reference_numbering new_writer named_ref))
                  eq_refl eq_refl) as (_ & _ & _ & Hnamed & Hmarker).
    split; [exact Hnamed | exact Hmarker].
  - pose proof (proj1 (proj2 (proj2 (reference_numbering
                                       (xwriteReference new_writer named_ref).1
                                       named_ref)))
                  1%nat 1%nat eq_refl eq_refl) as (_ & Hnamed & Hmarker).
    split; [exact Hnamed | exact Hmarker].
  - pose proof (proj1 (reference_numbering new_writer grouped_ref) eq_refl)
      as (Hrefs & _ & _ & _ & Hmarker).
    split; [exact Hrefs | exact Hmarker].
Defined.

(** ** The batch scheduler *)

Section SchedulerFacts.
Context `{Extern}.
Variable convert : string → result conversion.
Variable wikidb : Wiki.
Variable self : WikiParser.

Abbreviation run_step := (step convert wikidb self).
Abbreviation run_mp := (parse_mp convert wikidb self).
Abbreviation links := (process_languagelinks wikidb self).

Lemma added_app l1 l2 : added (l1 ++ l2) = added l1 ++ added l2.
Proof. apply List.filter_app. Qed.

Lemma reported_app l1 l2 : reported (l1 ++ l2) = reported l1 ++ reported l2.
Proof. apply omap_app. Qed.

(** Once the method is left, nothing happens any more. *)
Lemma step_stopped st ev : run_status st ≠ Running → run_step st ev = st.
Proof. unfold step. by destruct (run_status st). Qed.

Lemma run_stopped st schedule :
  run_status st ≠ Running → fold_left run_step schedule st = st.
Proof.
  intros Hst. induction schedule as [|ev schedule IH]; [done|]. simpl.
  by rewrite step_stopped.
Qed.

Lemma parse_mp_app schedule more :
  run_mp (schedule ++ more) = fold_left run_step more (run_mp schedule).
Proof. apply fold_left_app. Qed.

(** The language links add redirects that do not count, and only a
    library exception leaves [process_languagelinks]. *)
Lemma languagelink_targets_raises languagelinks targets e :
  languagelink_targets wikidb self languagelinks targets = Raise e →
  ∃ le, e = LibError le.
Proof.
  revert targets.
  induction languagelinks as [|[namespace target] rest IH]; intros targets;
    simpl; [done|].
  destruct (bool_decide _); [|by apply IH].
  destruct (_ >? _); [|by apply IH].
  destruct (reader_getitem wikidb _) as [[k|m|d]|text]; try by apply IH.
  - intros [= <-]. eauto.
  - intros [= <-]. eauto.
Qed.

Lemma process_languagelinks_raises title languagelinks e :
  links title languagelinks = Raise e → ∃ le, e = LibError le.
Proof.
  unfold process_languagelinks.
  destruct languagelinks as [[|l ls]|]; [done| |done].
  destruct (languagelink_targets _ _ _ _) as [t|e'] eqn:Ht; simpl; [done|].
  intros [= <-]. by eapply languagelink_targets_raises.
Qed.

Lemma process_languagelinks_calls title languagelinks calls :
  links title languagelinks = Ok calls →
  Forall (fun c => ∃ t s, c = add_article t s true false None) calls.
Proof.
  unfold process_languagelinks.
  destruct languagelinks as [[|l ls]|];
    [intros [= <-]; constructor | | intros [= <-]; constructor].
  destruct (languagelink_targets _ _ _ _) as [t|e'] eqn:Ht; simpl; [|done].
  intros [= <-]. apply Forall_fmap, Forall_forall. intros x _. simpl.
  by eexists _, _.
Qed.

Lemma uncounted_added calls :
  Forall (fun c => ∃ t s, c = add_article t s true false None) calls →
  added calls = [] ∧ reported calls = [] ∧ Forall counted_is_article calls.
Proof.
  induction 1 as [|c calls (t & s & ->) _ (Ha & Hr & Hc)]; [done|].
  repeat split; [done..|]. by constructor.
Qed.

(** Going round the outer loop changes neither the reports nor the
    counter; it can only end the run. *)
Lemma drain_keeps st :
  articles (drain self st) = articles st
  ∧ consumer (drain self st) = consumer st
  ∧ real_article_count (drain self st) = real_article_count st
  ∧ (run_status (drain self st) = run_status st
     ∨ (run_status st = Running ∧ run_status (drain self st) = Finished)).
Proof.
  unfold drain, next_chunk, set_status, chunk_exhausted.
  destruct st as [a c i n r log s]; simpl.
  destruct s; simpl; auto. destruct i; simpl; auto.
  destruct c, a, n; simpl; auto 6;
    destruct (mp_chunk_size self); simpl; auto 6.
Qed.

Lemma count_invariant_drain K st :
  count_invariant K st → count_invariant K (drain self st).
Proof.
  destruct (drain_keeps st) as (_ & Hc & Hr & Hs).
  unfold count_invariant. rewrite Hc, Hr. intros (Hn & Hall & Hst).
  split; [done|]. split; [done|].
  destruct Hs as [-> | [Hrun ->]]; [done|]. by rewrite Hrun in Hst.
Qed.

Lemma count_invariant_step K st ev :
  requested_article_count self = Some K → 0 < K →
  count_invariant K st → count_invariant K (run_step st ev).
Proof.
  intros HK Hpos Hinv. unfold step.
  destruct (run_status st) eqn:Hs; try done.
  destruct Hinv as (Hn & Hall & Hlt). rewrite Hs in Hlt.
  destruct ev as [|i|active].
  - destruct (chunk st), (articles st); unfold count_invariant; simpl;
      rewrite ?Hs; done.
  - destruct (inflight st !! i) as [a|]; [|unfold count_invariant;
                                            by rewrite ?Hs].
    apply count_invariant_drain.
    destruct (convert a) as [[[[[title ser] red] ll] size]|e].
    + unfold accept, truthy_count. rewrite HK.
      destruct (Z.eqb_spec K 0) as [|_]; [lia|]. simpl.
      destruct red; simpl.
      { unfold count_invariant; simpl. by rewrite ?Hs. }
      destruct (links title ll) as [calls|e] eqn:Hl.
      * apply process_languagelinks_calls, uncounted_added in Hl
          as (Ha & _ & Hc).
        assert (Hcount :
          real_article_count st + 1
          = Z.of_nat (length (added ((consumer st
               ++ [add_article title ser false true (Some size)])
               ++ calls)))).
        { rewrite !added_app, Ha, app_nil_r, length_app. simpl. lia. }
        assert (Hforall :
          Forall counted_is_article
            ((consumer st ++ [add_article title ser false true (Some size)])
             ++ calls)).
        { apply Forall_app. split; [|done]. apply Forall_app.
          split; [done|]. by constructor. }
        unfold report, count_article, count_result; simpl.
        destruct (Z.geb_spec (real_article_count st + 1) K);
          unfold count_invariant; simpl; rewrite ?Hs;
          (split; [done|]; split; [done|]); lia.
      * destruct (process_languagelinks_raises _ _ _ Hl) as [le ->]. simpl.
        unfold count_invariant; simpl.
        rewrite added_app, length_app. simpl.
        split; [lia|]. split; [|lia].
        apply Forall_app. split; [done|]. by constructor.
    + destruct e; simpl; unfold count_invariant; simpl;
        rewrite ?added_app, ?app_nil_r, ?Hs;
        (split; [done|]); (split; [|lia]); try done;
        apply Forall_app; (split; [done|]); by constructor.
  - apply count_invariant_drain. unfold count_invariant; simpl.
    rewrite added_app, app_nil_r, ?Hs. split; [done|]. split; [|done].
    apply Forall_app. split; [done|]. by constructor.
Qed.

Lemma count_invariant_init K :
  0 < K → count_invariant K (mp_init wikidb self).
Proof.
  intros Hpos. apply count_invariant_drain.
  unfold count_invariant; simpl. split; [done|]. split; [|done].
  by repeat constructor.
Qed.

Lemma count_invariant_run K schedule :
  requested_article_count self = Some K → 0 < K →
  count_invariant K (run_mp schedule).
Proof.
  intros HK Hpos. unfold parse_mp.
  generalize (count_invariant_init K Hpos).
  generalize (mp_init wikidb self) as st.
  induction schedule as [|ev schedule IH]; intros st Hst; [done|].
  simpl. apply IH. by apply count_invariant_step.
Qed.

(** With a requested article count [K > 0], whatever the pool does: at
    most [K] additions are counted and none of them is a redirect; the
    run returns early only with exactly [K] of them; and once [K] are
    counted the run is over, so that nothing is reported or
    dispatched afterwards. *)
Theorem early_termination (K : Z) (schedule : list pool_event) :
  requested_article_count self = Some K → 0 < K →
  let st := run_mp schedule in
  Z.of_nat (length (added (consumer st))) ≤ K
  ∧ Forall counted_is_article (consumer st)
  ∧ (run_status st = Returned →
     Z.of_nat (length (added (consumer st))) = K)
  ∧ (Z.of_nat (length (added (consumer st))) = K →
     run_status st ≠ Running ∧ run_status st ≠ Finished
     ∧ ∀ more, run_mp (schedule ++ more) = st).
Proof.
  intros HK Hpos st.
  destruct (count_invariant_run K schedule HK Hpos) as (Hn & Hall & Hst).
  fold st in Hn, Hall, Hst. rewrite <- Hn.
  split; [by destruct (run_status st); lia|]. split; [done|].
  split; [intros Hret; by rewrite Hret in Hst|].
  intros Hk.
  assert (Hover : run_status st ≠ Running)
    by (intros Hrun; rewrite Hrun in Hst; lia).
  split; [done|]. split; [intros Hfin; rewrite Hfin in Hst; lia|].
  intros more. rewrite parse_mp_app. by apply run_stopped.
Qed.

(** A timeout costs the titles in flight: the event is reported with
    the number of live workers, the new pool starts with nothing in
    flight, and no title goes back into the stream. *)
Lemma timeout_discards_inflight st active :
  run_status st = Running →
  let st' := run_step st (NoAnswer active) in
  consumer st' = consumer st ++ [timedout active]
  ∧ articles st' = articles st
  ∧ (run_status st' = Running → inflight st' = []).
Proof.
  intros Hs st'. subst st'. unfold step. rewrite Hs.
  match goal with |- context [drain self ?s] => set (st1 := s) end.
  destruct (drain_keeps st1) as (Ha & Hc & _ & _).
  rewrite Ha, Hc. split; [done|]. split; [done|].
  unfold drain, next_chunk, set_status, chunk_exhausted. simpl.
  destruct (chunk st), (articles st), (iter_count st); simpl; try done;
    destruct (mp_chunk_size self); simpl; done.
Qed.

End SchedulerFacts.

Lemma early_termination_witness :
  let st := parse_mp (H := sample_extern) rendering_stub two_articles
              (pooled 1 (Some 1)) [Feed; Answer 0] in
  Z.of_nat (length (added (consumer st))) = 1
  ∧ articles st = ["b"]
  ∧ ∀ more,
      parse_mp (H := sample_extern) rendering_stub two_articles
        (pooled 1 (Some 1)) ([Feed; Answer 0] ++ more) = st.
Proof.
  intros st.
  destruct (early_termination (H := sample_extern) rendering_stub two_articles
              (pooled 1 (Some 1)) 1 [Feed; Answer 0] eq_refl eq_refl)
    as (_ & _ & Hreturned & Hstop).
  split; [by apply Hreturned|]. split; [done|].
  by apply Hstop, Hreturned.
Defined.

(** ** Sequential and pooled runs on the pipeline *)

Section Runs.
Context `{Extern}.

(** The pipeline answers for the title it was given: a redirect
    record, [EmptyArticleError] or [ConvertError]. *)
Lemma convert_outcome wikidb title :
  (∃ s size, convert wikidb title = Ok (title, s, true, None, size))
  ∨ convert wikidb title = Raise (EmptyArticleError title)
  ∨ convert wikidb title = Raise (ConvertError title).
Proof.
  destruct (convert wikidb title) as [[[[[t s] r] l] sz]|e] eqn:Hc.
  - left. revert Hc. unfold convert, convert_try.
    destruct (reader_getitem wikidb title) as [e|text]; simpl; [done|].
    destruct (reader_getitem_size wikidb title) as [e|size]; simpl; [done|].
    destruct (Str.truthy text); simpl; [|done].
    destruct (get_redirect wikidb (default "" text)) as [red|e]; simpl;
      [|by destruct e].
    destruct (Str.truthy red).
    + intros [= <- <- <- <- <-]. by eexists _, _.
    + destruct (convert_article_raises wikidb title (default "" text) size)
        as [le ->]. done.
  - right.
    destruct (convert_raises wikidb title e Hc) as [[-> _] | ->]; auto.
Qed.

Lemma simple_iteration_reports wikidb self log title :
  ∃ c, simple_iteration (convert wikidb) wikidb self log title
       = (log ++ [c], None)
       ∧ outcome_title c = Some title.
Proof.
  unfold simple_iteration, simple_try.
  destruct (convert_outcome wikidb title) as [(s & size & ->) | [-> | ->]];
    simpl; eexists; (split; [by rewrite ?app_nil_r|done]).
Qed.

Lemma simple_loop_reports wikidb self titles log :
  ∃ calls,
    simple_loop (convert wikidb) wikidb self titles log
    = (log ++ calls, Finished)
    ∧ omap outcome_title calls = titles
    ∧ length calls = length titles.
Proof.
  revert log. induction titles as [|title titles IH]; intros log; simpl.
  - exists []. by rewrite app_nil_r.
  - destruct (simple_iteration_reports wikidb self log title)
      as (c & -> & Hc).
    destruct (IH (log ++ [c])) as (calls & -> & Hcalls & Hlen).
    exists (c :: calls). rewrite <- app_assoc.
    split; [done|]. split; [|by rewrite !length_cons, Hlen].
    change (omap outcome_title (c :: calls))
      with (match outcome_title c with
            | Some t => t :: omap outcome_title calls
            | None => omap outcome_title calls
            end).
    by rewrite Hc, Hcalls.
Qed.

(** X19. The sequential run: one report for every title of the slice,
    in the order of the stream, and nothing else after the metadata. *)
Theorem parse_simple_reports_each_title wikidb self :
  ∃ calls,
    parse_simple (convert wikidb) wikidb self
    = (add_metadata "article_format" "html" :: calls, Finished)
    ∧ omap outcome_title calls = parser_articles wikidb self
    ∧ length calls = length (parser_articles wikidb self).
Proof.
  unfold parse_simple.
  destruct (simple_loop_reports wikidb self (parser_articles wikidb self)
              [add_metadata "article_format" "html"])
    as (calls & -> & Hcalls & Hlen).
  by exists calls.
Qed.

End Runs.

Section PooledRuns.
Context `{Extern}.

Lemma stuck_before_b_init :
  stuck_before_b (mp_init two_articles (pooled 1 None)).
Proof.
  unfold stuck_before_b. simpl. split; [|by auto].
  intros Hb. apply elem_of_nil in Hb. done.
Qed.

Lemma stuck_before_b_step convert st ev :
  convert "a" = Raise (EmptyArticleError "a") →
  stuck_before_b st →
  stuck_before_b (step convert two_articles (pooled 1 None) st ev).
Proof.
  intros Hconvert. destruct st as [a c i n r log s].
  unfold stuck_before_b. simpl. intros (Hb & -> & Hst).
  destruct s; try done.
  destruct Hst as [(-> & -> & ->) | (-> & -> & ->)];
    destruct ev as [|[|j]|active]; unfold step; simpl;
    rewrite ?Hconvert; simpl; rewrite ?reported_app; simpl;
    rewrite ?app_nil_r; try by auto;
    try (split; [done|]; split; [done|]; by auto 6).
  split; [|done]. intros Hin. apply elem_of_app in Hin as [Hin|Hin];
    [done|]. apply elem_of_cons in Hin as [Hin|Hin]; [done|].
  by apply elem_of_nil in Hin.
Qed.

Lemma stuck_before_b_run convert schedule :
  convert "a" = Raise (EmptyArticleError "a") →
  stuck_before_b (parse_mp convert two_articles (pooled 1 None) schedule).
Proof.
  intros Hconvert. unfold parse_mp.
  generalize stuck_before_b_init.
  generalize (mp_init two_articles (pooled 1 None)) as st.
  induction schedule as [|ev schedule IH]; intros st Hst; [done|].
  simpl. apply IH. by apply stuck_before_b_step.
Qed.

(** C1, on the code.  The stream is [a], [b]; [a] is empty and the
    chunks hold one title.  The sequential run reports both titles.
    The pooled run, whatever the pool does, reports nothing for [b]:
    when it is over, after the chunk of [a] gave no result to count,
    [b] has not left the stream. *)
Theorem pooled_run_stops_after_fruitless_chunk (schedule : list pool_event) :
  let wikidb := two_articles in
  let self := pooled 1 None in
  let st := parse_mp (convert wikidb) wikidb self schedule in
  parser_articles wikidb self = ["a"; "b"]
  ∧ reported (parse_simple (convert wikidb) wikidb self).1 = ["a"; "b"]
  ∧ ("b" ∉ reported (consumer st))
  ∧ (run_status st ≠ Running →
     run_status st = Finished ∧ articles st = ["b"])
  ∧ (let st := parse_mp (convert wikidb) wikidb self [Feed; Answer 0] in
     run_status st = Finished
     ∧ consumer st
       = [add_metadata "article_format" "html"; empty_article "a"]).
Proof.
  intros wikidb self st.
  split; [done|]. split; [by vm_compute|].
  pose proof (stuck_before_b_run (convert wikidb) schedule eq_refl)
    as Hinv.
  change (stuck_before_b st) in Hinv. destruct Hinv as (Hb & _ & Hst).
  split; [done|]. split; [|by vm_compute].
  intros Hover. by destruct (run_status st).
Qed.


End PooledRuns.

(** ** The requested article count after a fruitless chunk *)

Section RequestedCount.
Context `{Extern}.

Lemma nothing_added_before_b_init wikidb count :
  db_articles wikidb = ["a"; "b"] →
  nothing_added_before_b (mp_init wikidb (pooled 1 count)).
Proof.
  intros Hdb. unfold nothing_added_before_b, stuck_before_b, mp_init,
    parser_articles. rewrite Hdb. simpl. split; [done|].
  split; [|by auto]. intros Hb. by apply elem_of_nil in Hb.
Qed.

Lemma nothing_added_before_b_step convert wikidb count st ev :
  convert "a" = Raise (EmptyArticleError "a") →
  nothing_added_before_b st →
  nothing_added_before_b (step convert wikidb (pooled 1 count) st ev).
Proof.
  intros Hconvert. destruct st as [a c i n r log s].
  unfold nothing_added_before_b, stuck_before_b. simpl.
  intros (Hadded & Hb & -> & Hst).
  destruct s; try done.
  destruct Hst as [(-> & -> & ->) | (-> & -> & ->)];
    destruct ev as [|[|j]|active]; unfold step; simpl;
    rewrite ?Hconvert; simpl; rewrite ?reported_app, ?added_app; simpl;
    rewrite ?app_nil_r, ?Hadded; try by auto 6;
    try (split; [done|]; split; [done|]; split; [done|]; by auto 6).
  split; [done|]. split; [|done].
  intros Hin. apply elem_of_app in Hin as [Hin|Hin];
    [done|]. apply elem_of_cons in Hin as [Hin|Hin]; [done|].
  by apply elem_of_nil in Hin.
Qed.

Lemma nothing_added_before_b_run convert wikidb count schedule :
  db_articles wikidb = ["a"; "b"] →
  convert "a" = Raise (EmptyArticleError "a") →
  nothing_added_before_b (parse_mp convert wikidb (pooled 1 count) schedule).
Proof.
  intros Hdb Hconvert. unfold parse_mp.
  generalize (nothing_added_before_b_init wikidb count Hdb).
  generalize (mp_init wikidb (pooled 1 count)) as st.
  induction schedule as [|ev schedule IH]; intros st Hst; [done|].
  simpl. apply IH. by apply nothing_added_before_b_step.
Qed.

(** C8, on the code.  One article is requested and the chunks hold one
    title; the stream is [a], [b], where [a] is empty and [b] is an
    article.  With a pipeline that renders [b], a single chunk of two
    titles ends the run early with [b] added and counted: the stream
    has the article that is asked for.  With chunks of one title the
    run, whatever the pool does, makes no addition and reports nothing
    for [b]: when it is over, after the chunk of [a] gave no result,
    [b] has not left the stream.  The pipeline of wiki.py, run on the
    empty [a] and a [b] of plain text, gives the same. *)
Theorem requested_count_is_missed_after_fruitless_chunk
    (schedule : list pool_event) :
  let self := pooled 1 (Some 1) in
  let st := parse_mp empty_a_stub two_articles self schedule in
  let st' :=
    parse_mp (convert empty_then_plain) empty_then_plain self schedule in
  (let whole := parse_mp empty_a_stub two_articles (pooled 2 (Some 1))
                  [Feed; Feed; Answer 0; Answer 0] in
   run_status whole = Returned
   ∧ added (consumer whole)
     = [add_article "b" "['', []]" false true (Some 1)]
   ∧ reported (consumer whole) = ["a"; "b"])
  ∧ parser_articles two_articles self = ["a"; "b"]
  ∧ empty_a_stub "b" = Ok ("b", "['', []]", false, Some [], 1)
  ∧ added (consumer st) = []
  ∧ ("b" ∉ reported (consumer st))
  ∧ (run_status st ≠ Running →
     run_status st = Finished ∧ articles st = ["b"])
  ∧ (let st := parse_mp empty_a_stub two_articles self [Feed; Answer 0] in
     run_status st = Finished
     ∧ consumer st
       = [add_metadata "article_format" "html"; empty_article "a"])
  ∧ added (consumer st') = []
  ∧ ("b" ∉ reported (consumer st'))
  ∧ (run_status st' ≠ Running →
     run_status st' = Finished ∧ articles st' = ["b"]).
Proof.
  intros self st st'.
  split; [by vm_compute|]. split; [done|]. split; [done|].
  pose proof (nothing_added_before_b_run empty_a_stub two_articles (Some 1)
                schedule eq_refl eq_refl) as Hinv.
  change (nothing_added_before_b st) in Hinv.
  destruct Hinv as (Hadded & Hb & _ & Hst).
  split; [done|]. split; [done|].
  split; [intros Hover; by destruct (run_status st)|].
  split; [by vm_compute|].
  pose proof (nothing_added_before_b_run (convert empty_then_plain)
                empty_then_plain (Some 1) schedule eq_refl eq_refl) as Hinv.
  change (nothing_added_before_b st') in Hinv.
  destruct Hinv as (Hadded' & Hb' & _ & Hst').
  split; [done|]. split; [done|].
  intros Hover. by destruct (run_status st').
Qed.

End RequestedCount.

(** ** More on redirects *)

Section MoreRedirectFacts.
Context `{Extern}.

Lemma parse_redirect_match text aliases :
  (∃ a, a ∈ aliases ∧ alias_matches text a = true) →
  parse_redirect text aliases ≠ Ok None.
Proof.
  induction aliases as [|alias aliases IH]; intros (a & Ha & Hm).
  - by apply elem_of_nil in Ha.
  - simpl. destruct (Str.startswith text alias || _) eqn:Halias.
    + repeat case_match; done.
    + apply IH. exists a. split; [|done].
      apply elem_of_cons in Ha as [->|Ha]; [|done].
      unfold alias_matches in Hm. congruence.
Qed.

(** X1. [parse_redirect] answers [None] exactly when no alias is a
    prefix of the text or of its upper-cased form. *)
Theorem parse_redirect_none_iff (text : string) (aliases : list string) :
  parse_redirect text aliases = Ok None
  ↔ ∀ a, a ∈ aliases → alias_matches text a = false.
Proof.
  split; [|apply parse_redirect_no_match].
  intros Hnone a Ha. destruct (alias_matches text a) eqn:Hm; [|done].
  destruct (parse_redirect_match text aliases); eauto.
Qed.

Lemma find_closing_brackets target tail k :
  without_char "]" target →
  Str.find_from (target +:+ "]]" +:+ tail) "]]" k = k + Str.len target.
Proof.
  unfold without_char, Str.len. revert k.
  induction target as [|c target IH]; intros k Hno.
  - change ("" +:+ "]]" +:+ tail) with (String "]" (String "]" tail)).
    simpl. lia.
  - simpl in Hno. apply Forall_cons in Hno as [Hc Hno].
    rewrite app_cons. simpl.
    destruct (Ascii.eqb_spec c "]") as [->|_]; [done|].
    rewrite IH by done. lia.
Qed.

Lemma take_app_str p q : Str.take (String.length p) (p +:+ q) = p.
Proof.
  induction p as [|c p IH]; [by destruct q|].
  rewrite app_cons. simpl. by rewrite IH.
Qed.

(** The remainder after the alias is a target in double brackets. *)
Lemma parse_redirect_bracketed text alias post target tail :
  alias_matches text alias = true →
  Str.lstrip (Str.slice_from text (Str.len alias))
  = "[[" +:+ target +:+ "]]" +:+ tail →
  without_char "]" target →
  parse_redirect text (alias :: post) = Ok (Some target).
Proof.
  intros Hm Hrest Hno.
  rewrite (parse_redirect_target text alias post 0
             (2 + String.length target) Hm); rewrite Hrest.
  - unfold Str.slice.
    replace (Z.to_nat (Z.of_nat 0 + 2)) with 2%nat by lia.
    replace (Z.to_nat (Z.of_nat (2 + String.length target)
                       - (Z.of_nat 0 + 2)))
      with (String.length target) by lia.
    change (Str.drop 2 ("[[" +:+ target +:+ "]]" +:+ tail))
      with (target +:+ "]]" +:+ tail).
    by rewrite take_app_str.
  - by apply find_present.
  - apply find_present. unfold Str.find.
    change ("[[" +:+ target +:+ "]]" +:+ tail)
      with (String "[" (String "[" (target +:+ "]]" +:+ tail))).
    simpl. rewrite find_closing_brackets by done. unfold Str.len. lia.
Qed.

(** X2. Building and parsing a redirect is a round trip: a text made
    of a directive as long as the first alias that matches, white space,
    a target without a closing bracket in double brackets and anything
    after it parses to the target. *)
Theorem parse_redirect_round_trip
    (directive alias ws target tail : string) (pre post : list string) :
  let text := directive +:+ ws +:+ "[[" +:+ target +:+ "]]" +:+ tail in
  (∀ a, a ∈ pre → alias_matches text a = false) →
  alias_matches text alias = true →
  String.length directive = String.length alias →
  whitespace ws →
  without_char "]" target →
  parse_redirect text (pre ++ alias :: post) = Ok (Some target).
Proof.
  intros text Hpre Hm Hlen Hws Hno.
  rewrite parse_redirect_skip by done.
  apply (parse_redirect_bracketed text alias post target tail); [done| |done].
  unfold Str.slice_from, Str.len, text.
  rewrite Nat2Z.id, <- Hlen, drop_app_str. by apply lstrip_whitespace.
Qed.

Section Aliases.
Variable lower : string → string.

Lemma add_aliases_spec aliases set x :
  x ∈ add_aliases lower aliases set
  ↔ x ∈ set
    ∨ ∃ alias, alias ∈ aliases
               ∧ (x = alias ∨ x = lower alias ∨ x = upper alias).
Proof.
  revert set. induction aliases as [|alias aliases IH]; intros set; simpl.
  - split; [by left|]. intros [Hx | (alias & Ha & _)]; [done|].
    by apply elem_of_nil in Ha.
  - rewrite IH, !elem_of_union, !elem_of_singleton. split.
    + intros [[-> | [-> | [-> | Hx]]] | (a & Ha & Hx)].
      * right. exists alias. split; [by left | auto].
      * right. exists alias. split; [by left | auto].
      * right. exists alias. split; [by left | auto].
      * by left.
      * right. exists a. split; [by right | done].
    + intros [Hx | (a & Ha & Hx)]; [by auto 6|].
      apply elem_of_cons in Ha as [->|Ha].
      * left. destruct Hx as [-> | [-> | ->]]; auto.
      * right. by exists a.
Qed.

(** X3. [Wiki.__init__] fails with IndexError when the site information
    has no magic word named [redirect]; otherwise the set it builds holds
    each alias of that magic word with its lower-cased and upper-cased
    forms and nothing else, so that, in whatever order the set is
    iterated, a text that begins with one of these forms is never taken
    for an article that is not a redirect. *)
Theorem redirect_aliases_cover (magicwords : list magicword) :
  ((∀ mw, mw ∈ magicwords → mw_name mw ≠ "redirect") →
     init_redirect_aliases lower magicwords = inl (OtherError "IndexError"))
  ∧ (∀ set,
       init_redirect_aliases lower magicwords = inr set →
       ∃ aliases,
         siteinfo_aliases magicwords = inr aliases
         ∧ (∀ x, x ∈ set
                 ↔ ∃ alias, alias ∈ aliases
                            ∧ (x = alias ∨ x = lower alias
                               ∨ x = upper alias))
         ∧ ∀ order alias variant rest,
             (∀ a, a ∈ order ↔ a ∈ set) →
             alias ∈ aliases →
             variant ∈ [alias; lower alias; upper alias] →
             parse_redirect (variant +:+ rest) order ≠ Ok None).
Proof.
  split.
  - intros Hnone. unfold init_redirect_aliases, siteinfo_aliases.
    destruct (List.filter _ magicwords) as [|mw l] eqn:Hf; [done|].
    assert (Hin : In mw (List.filter
                           (fun mw => String.eqb (mw_name mw) "redirect")
                           magicwords)) by (rewrite Hf; by left).
    apply filter_In in Hin as [Hin Hname].
    apply String.eqb_eq in Hname. apply list_elem_of_In in Hin.
    by destruct (Hnone mw Hin).
  - intros set. unfold init_redirect_aliases.
    destruct (siteinfo_aliases magicwords) as [e|aliases]; [done|].
    intros [= <-]. exists aliases. split; [done|].
    assert (Hset : ∀ x, x ∈ add_aliases lower aliases ∅
                        ↔ ∃ alias, alias ∈ aliases
                                   ∧ (x = alias ∨ x = lower alias
                                      ∨ x = upper alias)).
    { intros x. rewrite add_aliases_spec. split; [|by right].
      intros [Hx|Hx]; [|done]. by apply elem_of_empty in Hx. }
    split; [done|].
    intros order alias variant rest Horder Halias Hvariant.
    apply parse_redirect_match. exists variant. split.
    + apply Horder, Hset. exists alias. split; [done|].
      rewrite !elem_of_cons, elem_of_nil in Hvariant. tauto.
    + unfold alias_matches. by rewrite startswith_app.
Qed.

End Aliases.

End MoreRedirectFacts.

Lemma parse_redirect_round_trip_witness :
  parse_redirect (H := sample_extern)
    "#Redirect  [[New title]] {{R from move}}" ["#redirect"; "#REDIRECT"]
  = Ok (Some "New title").
Proof.
  apply (parse_redirect_round_trip (H := sample_extern)
           "#Redirect" "#REDIRECT" "  " "New title" " {{R from move}}"
           ["#redirect"] []).
  - no_alias_matches.
  - reflexivity.
  - reflexivity.
  - repeat constructor.
  - repeat (constructor; [done|]). constructor.
Defined.

Lemma redirect_aliases_cover_witness :
  init_redirect_aliases (H := sample_extern) ascii_lower broken_magicwords
  = inl (OtherError "IndexError")
  ∧ parse_redirect (H := sample_extern) "#weiterleitung [[Ziel]]"
      (elements (add_aliases (H := sample_extern) ascii_lower
                   ["#REDIRECT"; "#Weiterleitung"] ∅))
    ≠ Ok None.
Proof.
  split.
  - apply (proj1 (redirect_aliases_cover (H := sample_extern) ascii_lower
                    broken_magicwords)).
    intros mw Hmw. apply elem_of_cons in Hmw as [->|Hmw]; [done|].
    by apply elem_of_nil in Hmw.
  - destruct (proj2 (redirect_aliases_cover (H := sample_extern) ascii_lower
                       german_magicwords) _ eq_refl)
      as (aliases & Haliases & _ & Hdetect).
    injection Haliases as <-.
    apply (Hdetect _ "#Weiterleitung" "#weiterleitung" " [[Ziel]]").
    + intros a. apply elem_of_elements.
    + right. by left.
    + right. by left.
Defined.

(** ** More on the pipeline *)

Section MorePipelineFacts.
Context `{Extern}.

(** X4. A text made of a redirect directive, white space and a target
    in double brackets is converted to the redirect record of the title,
    pointing at the fully qualified name of the target and carrying the
    size of the text; whatever follows the brackets is dropped. *)
Theorem convert_redirect_record (wikidb : Wiki)
    (title directive alias ws target tail : string) (pre post : list string)
    (size : Z) :
  let text := directive +:+ ws +:+ "[[" +:+ target +:+ "]]" +:+ tail in
  redirect_aliases wikidb = pre ++ alias :: post →
  (∀ a, a ∈ pre → alias_matches text a = false) →
  alias_matches text alias = true →
  String.length directive = String.length alias →
  whitespace ws →
  without_char "]" target →
  target ≠ "" →
  get_fqname wikidb target ≠ "" →
  reader_getitem wikidb title = inr (Some text) →
  reader_getitem_size wikidb title = inr size →
  convert wikidb title
  = Ok (title,
        tojson (JArray [JString ""; JArray [];
                        JObject [("r", JString (get_fqname wikidb target))]]),
        true, None, size).
Proof.
  intros text Hal Hpre Hm Hlen Hws Hno Htarget Hfq Hr Hs.
  assert (Hp : parse_redirect text (redirect_aliases wikidb)
               = Ok (Some target)).
  { rewrite Hal, parse_redirect_skip by done.
    apply (parse_redirect_bracketed text alias post target tail);
      [done| |done].
    unfold Str.slice_from, Str.len, text.
    rewrite Nat2Z.id, <- Hlen, drop_app_str. by apply lstrip_whitespace. }
  assert (Htruthy : Str.truthy (Some text) = true).
  { unfold text. destruct directive; [destruct ws|]; done. }
  unfold convert, convert_try. rewrite Hr, Hs. simpl.
  simpl in Htruthy. rewrite Htruthy. simpl.
  unfold get_redirect. rewrite Hp. simpl.
  destruct target as [|c target]; [done|]. simpl.
  by destruct (get_fqname wikidb (String c target)).
Qed.

(** X5. Whatever the database, the parser and the writer do, the
    pipeline has three outcomes for a title: the redirect record of that
    title, [EmptyArticleError] for that title, [ConvertError] for that
    title.  The record of an article that is not a redirect is not among
    them: the writer is called with three arguments and takes one. *)
Theorem convert_outcomes (wikidb : Wiki) (title : string) :
  (∃ target size,
     convert wikidb title
     = Ok (title,
           tojson (JArray [JString ""; JArray [];
                           JObject [("r", JString target)]]),
           true, None, size))
  ∨ convert wikidb title = Raise (EmptyArticleError title)
  ∨ convert wikidb title = Raise (ConvertError title).
Proof.
  destruct (convert wikidb title) as [[[[[t s] r] l] sz]|e] eqn:Hc.
  - left. revert Hc. unfold convert, convert_try.
    destruct (reader_getitem wikidb title) as [e|text]; simpl; [done|].
    destruct (reader_getitem_size wikidb title) as [e|size]; simpl; [done|].
    destruct (Str.truthy text); simpl; [|done].
    destruct (get_redirect wikidb (default "" text)) as [red|e]; simpl;
      [|by destruct e].
    destruct (Str.truthy red).
    + intros [= <- <- <- <- <-]. by eexists _, _.
    + destruct (convert_article_raises wikidb title (default "" text) size)
        as [le ->]. done.
  - right. destruct (convert_raises wikidb title e Hc) as [[-> _] | ->]; auto.
Qed.

Lemma convert_answers_for_title wikidb : answers_for_title (convert wikidb).
Proof.
  intros a.
  destruct (convert_outcome wikidb a) as [(s & size & ->) | [-> | ->]];
    [done|..]; by intros t [= <-].
Qed.

End MorePipelineFacts.

Lemma convert_redirect_record_witness :
  convert (H := sample_extern) moved_page "Old"
  = Ok ("Old", "['', [], {'r': 'New title'}]", true, None, 40).
Proof.
  apply (convert_redirect_record (H := sample_extern) moved_page
           "Old" "#redirect" "#REDIRECT" "  " "New title" " {{R from move}}"
           [] ["#redirect"] 40 eq_refl); try done.
  - no_alias_matches.
  - repeat constructor.
  - repeat (constructor; [done|]). constructor.
Defined.

(** ** More on the pooled run *)

Section MoreSchedulerFacts.
Context `{Extern}.
Variable convert : string → result conversion.
Variable wikidb : Wiki.
Variable self : WikiParser.

Abbreviation pool_step := (step convert wikidb self).
Abbreviation pool_run := (parse_mp convert wikidb self).

Lemma drain_inflight st : inflight (drain self st) = inflight st.
Proof.
  unfold drain, next_chunk, set_status, chunk_exhausted.
  destruct st as [a c i n r log s]; simpl.
  destruct s; simpl; auto. destruct i; simpl; auto.
  destruct c, a, n; simpl; auto; destruct (mp_chunk_size self); simpl; auto.
Qed.

Lemma drain_ledger st : ledger (drain self st) = ledger st.
Proof.
  destruct (drain_keeps self st) as (Ha & Hc & _ & _).
  unfold ledger. by rewrite Ha, Hc, drain_inflight.
Qed.

(** What an answer does before the outer loop is looked at: the task
    leaves the flight, and the consumer hears of at most the title that
    was answered for. *)
Lemma step_answer st i a :
  run_status st = Running →
  inflight st !! i = Some a →
  ∃ st' calls,
    pool_step st (Answer i) = drain self st'
    ∧ articles st' = articles st
    ∧ inflight st' = delete i (inflight st)
    ∧ consumer st' = consumer st ++ calls
    ∧ (answers_for_title convert →
       reported calls = [] ∨ reported calls = [a]).
Proof.
  intros Hs Hi. unfold step. rewrite Hs, Hi.
  pose proof (fun Hans : answers_for_title convert => Hans a) as Ha.
  destruct (convert a) as [[[[[title ser] red] ll] size]|e] eqn:Hc.
  - unfold accept.
    destruct (truthy_count (requested_article_count self)), red; simpl;
      try (destruct (process_languagelinks wikidb self title ll)
             as [calls|e] eqn:Hl; simpl;
           [apply process_languagelinks_calls, uncounted_added in Hl
              as (_ & Hrep & _)
           |destruct (process_languagelinks_raises _ _ _ _ _ Hl) as [le ->];
            simpl]);
      try (destruct (_ >=? _); simpl);
      eexists _, _; (split; [reflexivity|]); simpl;
      (split; [done|]); (split; [done|]);
      try (split; [by rewrite <- ?app_assoc|]);
      try (split; [symmetry; apply app_nil_r|]);
      intros Hans; rewrite ?reported_app, ?Hrep; simpl;
      rewrite ?(Ha Hans); auto.
  - destruct e as [t|t|t|le]; simpl;
      eexists _, _; (split; [reflexivity|]); simpl;
      (split; [done|]); (split; [done|]);
      try (split; [done|]); try (split; [symmetry; apply app_nil_r|]);
      intros Hans; simpl; rewrite ?(Ha Hans t eq_refl); auto.
Qed.

Lemma step_ledger st ev :
  answers_for_title convert → ledger (pool_step st ev) ⊆+ ledger st.
Proof.
  intros Hans.
  destruct (run_status st) eqn:Hs;
    try (rewrite step_stopped by congruence; done).
  destruct ev as [|i|active].
  - unfold step. rewrite Hs.
    destruct (chunk st), (articles st) as [|a rest] eqn:Ha; try done.
    unfold ledger. simpl. rewrite Ha, <- (app_assoc (inflight st)). done.
  - destruct (inflight st !! i) as [a|] eqn:Hi.
    + destruct (step_answer st i a Hs Hi)
        as (st' & calls & -> & Ha & Hf & Hc & Hrep).
      rewrite drain_ledger. unfold ledger.
      rewrite Ha, Hf, Hc, reported_app, <- app_assoc.
      apply submseteq_skips_l.
      rewrite (delete_Permutation _ _ _ Hi) at 2.
      destruct (Hrep Hans) as [-> | ->]; simpl; [|done].
      by apply submseteq_cons.
    + unfold step. by rewrite Hs, Hi.
  - unfold step. rewrite Hs, drain_ledger. unfold ledger. simpl.
    rewrite reported_app. simpl. rewrite app_nil_r.
    apply submseteq_skips_l, submseteq_inserts_l. done.
Qed.

Lemma step_suffix st ev : articles (pool_step st ev) `suffix_of` articles st.
Proof.
  destruct (run_status st) eqn:Hs;
    try (rewrite step_stopped by congruence; done).
  destruct ev as [|i|active].
  - unfold step. rewrite Hs.
    destruct (chunk st), (articles st) as [|a rest] eqn:Ha; simpl;
      rewrite ?Ha; try done.
    by apply suffix_cons_r.
  - destruct (inflight st !! i) as [a|] eqn:Hi.
    + destruct (step_answer st i a Hs Hi) as (st' & calls & -> & Ha & _).
      destruct (drain_keeps self st') as (-> & _). by rewrite Ha.
    + unfold step. by rewrite Hs, Hi.
  - unfold step. rewrite Hs.
    match goal with |- context [drain self ?s] =>
      destruct (drain_keeps self s) as (-> & _) end.
    done.
Qed.

Lemma run_ledger st schedule :
  answers_for_title convert →
  ledger (fold_left pool_step schedule st) ⊆+ ledger st.
Proof.
  intros Hans. revert st.
  induction schedule as [|ev schedule IH]; intros st; [done|].
  simpl. etrans; [apply IH | by apply step_ledger].
Qed.

Lemma run_suffix st schedule :
  articles (fold_left pool_step schedule st) `suffix_of` articles st.
Proof.
  revert st. induction schedule as [|ev schedule IH]; intros st; [done|].
  simpl. etrans; [apply IH | apply step_suffix].
Qed.

Lemma ledger_init : ledger (mp_init wikidb self) = parser_articles wikidb self.
Proof. unfold mp_init. by rewrite drain_ledger. Qed.

Lemma parse_mp_ledger schedule :
  answers_for_title convert →
  ledger (pool_run schedule) ⊆+ parser_articles wikidb self.
Proof. intros Hans. rewrite <- ledger_init. by apply run_ledger. Qed.

End MoreSchedulerFacts.

Section PooledRunTheorems.
Context `{Extern}.
Variable convert : string → result conversion.
Variable wikidb : Wiki.
Variable self : WikiParser.

Abbreviation the_step := (step convert wikidb self).
Abbreviation the_run := (parse_mp convert wikidb self).
Abbreviation stream := (parser_articles wikidb self).

(** X7. With a pipeline that answers for the title it is given, a
    pooled run never invents or repeats a title: the titles reported, in
    flight and not yet taken are together a part of the slice, counted
    with repetitions; the titles not yet taken are the end of the slice;
    and when the slice has no title twice, no title is reported twice or
    reported while it is still in flight or in the stream. *)
Theorem pooled_run_accounts_for_titles (schedule : list pool_event) :
  answers_for_title convert →
  let st := the_run schedule in
  ledger st ⊆+ stream
  ∧ articles st `suffix_of` stream
  ∧ (NoDup stream →
     NoDup (reported (consumer st))
     ∧ ∀ t, t ∈ reported (consumer st) →
            (t ∉ inflight st) ∧ (t ∉ articles st)).
Proof.
  intros Hans st.
  assert (Hledger : ledger st ⊆+ stream) by by apply parse_mp_ledger.
  split; [done|]. split.
  - pose proof (run_suffix convert wikidb self (mp_init wikidb self) schedule)
      as Hsuffix.
    destruct (drain_keeps self
                (mkState stream (mp_chunk_size self) [] 0 0
                   [add_metadata "article_format" "html"] Running))
      as (Ha & _).
    unfold mp_init in Hsuffix at 2. by rewrite Ha in Hsuffix.
  - intros Hnodup.
    assert (Hnd : NoDup (ledger st)).
    { apply submseteq_Permutation in Hledger as [k Hk].
      rewrite Hk in Hnodup. by apply NoDup_app in Hnodup as (? & _). }
    unfold ledger in Hnd. apply NoDup_app in Hnd as (Hrep & Hdisj & _).
    split; [done|]. intros t Ht. specialize (Hdisj t Ht).
    rewrite elem_of_app in Hdisj. tauto.
Qed.

(** X8. A title that is in flight when the pool times out is never
    reported, whatever the pool does afterwards (for a slice without
    repeated titles). *)
Theorem title_in_flight_at_timeout_is_lost
    (schedule more : list pool_event) (active : nat) (t : string) :
  answers_for_title convert →
  NoDup stream →
  run_status (the_run schedule) = Running →
  t ∈ inflight (the_run schedule) →
  t ∉ reported (consumer (the_run (schedule ++ NoAnswer active :: more))).
Proof.
  intros Hans Hnodup Hs Ht Hreported.
  pose proof (parse_mp_ledger convert wikidb self schedule Hans) as Hledger.
  assert (Hnd : NoDup (ledger (the_run schedule))).
  { apply submseteq_Permutation in Hledger as [k Hk].
    rewrite Hk in Hnodup. by apply NoDup_app in Hnodup as (? & _). }
  set (st := the_run schedule) in *.
  destruct (timeout_discards_inflight convert wikidb self st active Hs)
    as (Hc & Ha & Hf).
  set (st' := the_step st (NoAnswer active)) in *.
  assert (Hst' : t ∉ ledger st').
  { unfold ledger. rewrite Hc, Ha, reported_app. simpl. rewrite app_nil_r.
    assert (Hfl : inflight st' = []).
    { destruct (run_status st') eqn:Hs'; [by apply Hf|..];
        subst st'; unfold step; rewrite Hs;
        match goal with |- context [drain self ?s] =>
          rewrite (drain_inflight self s) end; done. }
    rewrite Hfl. simpl. unfold ledger in Hnd.
    apply NoDup_app in Hnd as (_ & Hdisj & Hnd).
    apply NoDup_app in Hnd as (_ & Hdisj' & _).
    rewrite elem_of_app. intros [Hin|Hin].
    - apply (Hdisj t Hin). rewrite elem_of_app. by left.
    - by apply (Hdisj' t Ht). }
  apply Hst'.
  apply (elem_of_submseteq (ledger (fold_left the_step more st'))).
  - unfold ledger. rewrite elem_of_app. left.
    rewrite parse_mp_app in Hreported. done.
  - by apply run_ledger.
Qed.

(** X9. With chunks of no title, a pooled run ends at once: nothing is
    taken from the stream and the consumer only hears of the article
    format. *)
Theorem empty_chunks_process_nothing (schedule : list pool_event) :
  mp_chunk_size self = 0%nat →
  the_run schedule
  = mkState stream 0 [] 0 0 [add_metadata "article_format" "html"] Finished.
Proof.
  intros Hsize. unfold parse_mp.
  assert (Hinit :
    mp_init wikidb self
    = mkState stream 0 [] 0 0 [add_metadata "article_format" "html"]
        Finished).
  { unfold mp_init, drain, next_chunk, chunk_exhausted. by rewrite Hsize. }
  rewrite Hinit. by apply run_stopped.
Qed.

End PooledRunTheorems.

Section SingleChunk.
Context `{Extern}.
Variable convert : string → result conversion.
Variable wikidb : Wiki.
Variable self : WikiParser.

Abbreviation chunk_step := (step convert wikidb self).

Lemma drain_busy st : inflight st ≠ [] → drain self st = st.
Proof. unfold drain. by destruct (run_status st), (inflight st). Qed.

Lemma drain_stopped st : run_status st ≠ Running → drain self st = st.
Proof. unfold drain. by destruct (run_status st). Qed.

Lemma drain_finishes st :
  run_status st = Running → inflight st = [] → articles st = [] →
  run_status (drain self st) = Finished.
Proof.
  unfold drain, next_chunk, set_status, chunk_exhausted.
  destruct st as [a c i n r log s]; simpl. intros -> -> ->.
  destruct c, n; simpl; try done; by destruct (mp_chunk_size self).
Qed.

Lemma feed_all l st :
  run_status st = Running →
  articles st = l →
  (length l ≤ chunk st)%nat →
  fold_left chunk_step (replicate (length l) Feed) st
  = mkState [] (chunk st - length l) (inflight st ++ l) (iter_count st)
      (real_article_count st) (consumer st) Running.
Proof.
  revert st. induction l as [|a l IH]; intros st Hs Ha Hlen.
  - destruct st; simpl in *. subst.
    by rewrite Nat.sub_0_r, app_nil_r.
  - simpl in *. unfold step at 2. rewrite Hs, Ha.
    destruct (chunk st) as [|k] eqn:Hk; [lia|].
    rewrite IH; simpl; [|done|done|lia].
    by rewrite <- app_assoc.
Qed.

(** An answer for the head of the flight, in a run without a requested
    article count, is a pass of the sequential loop. *)
Lemma answer_head st a rest :
  run_status st = Running →
  inflight st = a :: rest →
  truthy_count (requested_article_count self) = false →
  ∃ st',
    chunk_step st (Answer 0) = drain self st'
    ∧ articles st' = articles st
    ∧ inflight st' = rest
    ∧ match simple_iteration convert wikidb self (consumer st) a with
      | (log, None) => consumer st' = log ∧ run_status st' = Running
      | (log, Some e) => consumer st' = log ∧ run_status st' = Propagated e
      end.
Proof.
  intros Hs Hf Hcount. unfold step, simple_iteration, simple_try.
  rewrite Hs, Hf. simpl.
  destruct (convert a) as [[[[[title ser] red] ll] size]|e].
  - unfold accept. rewrite Hcount.
    destruct (process_languagelinks wikidb self title ll) as [calls|e];
      [|destruct e]; simpl;
      eexists; (split; [reflexivity|]); simpl; rewrite ?Hs; done.
  - destruct e; simpl;
      eexists; (split; [reflexivity|]); simpl; rewrite ?Hs; done.
Qed.

Lemma answer_all rest a st :
  run_status st = Running →
  articles st = [] →
  inflight st = a :: rest →
  truthy_count (requested_article_count self) = false →
  let final :=
    fold_left chunk_step (replicate (S (length rest)) (Answer 0)) st in
  (consumer final, run_status final)
  = simple_loop convert wikidb self (a :: rest) (consumer st).
Proof.
  revert a st. induction rest as [|b rest IH]; intros a st Hs Ha Hf Hcount;
    destruct (answer_head st a _ Hs Hf Hcount)
      as (st' & Hstep & Ha' & Hf' & Hsim);
    rewrite replicate_S; cbn [fold_left simple_loop]; rewrite Hstep;
    destruct (simple_iteration convert wikidb self (consumer st) a)
      as [log [e|]]; destruct Hsim as [Hc Hs'].
  - simpl. rewrite drain_stopped by congruence. by rewrite Hs', Hc.
  - simpl. destruct (drain_keeps self st') as (_ & -> & _).
    rewrite drain_finishes by congruence. by rewrite Hc.
  - rewrite drain_stopped by congruence.
    rewrite run_stopped by congruence. by rewrite Hs', Hc.
  - rewrite drain_busy by (rewrite Hf'; done).
    rewrite <- Hc. apply IH; congruence.
Qed.

(** X10. When the whole slice fits in one chunk and no article count is
    requested, a pooled run in which the pool takes every title and then
    answers in the order of the stream makes the consumer calls of the
    sequential run, and ends as it does. *)
Theorem single_chunk_run_is_sequential :
  truthy_count (requested_article_count self) = false →
  (length (parser_articles wikidb self) ≤ mp_chunk_size self)%nat →
  let n := length (parser_articles wikidb self) in
  let st := parse_mp convert wikidb self
              (replicate n Feed ++ replicate n (Answer 0)) in
  (consumer st, run_status st) = parse_simple convert wikidb self.
Proof.
  intros Hcount Hsize n st. subst st n. unfold parse_mp, parse_simple.
  rewrite fold_left_app.
  destruct (parser_articles wikidb self) as [|a rest] eqn:Hstream.
  - simpl. unfold mp_init. rewrite Hstream.
    match goal with |- context [drain self ?s] =>
      destruct (drain_keeps self s) as (_ & -> & _);
      rewrite (drain_finishes s) by done end.
    done.
  - assert (Hinit :
      mp_init wikidb self
      = mkState (a :: rest) (mp_chunk_size self) [] 0 0
          [add_metadata "article_format" "html"] Running).
    { unfold mp_init, drain, chunk_exhausted. rewrite Hstream. simpl.
      destruct (mp_chunk_size self); [simpl in Hsize; lia | done]. }
    rewrite Hinit, feed_all; [|done..]. simpl inflight.
    by apply answer_all.
Qed.

End SingleChunk.

Ltac no_duplicates := refine (bool_decide_unpack _ _); by vm_compute.

Lemma pooled_run_accounts_for_titles_witness :
  let st := parse_mp (H := sample_extern)
              (convert (H := sample_extern) two_redirects) two_redirects
              (pooled 2 None) [Feed; Feed; Answer 1] in
  ledger st ⊆+ ["a"; "b"] ∧ NoDup (reported (consumer st)).
Proof.
  intros st.
  destruct (pooled_run_accounts_for_titles (H := sample_extern)
              (convert (H := sample_extern) two_redirects) two_redirects
              (pooled 2 None) [Feed; Feed; Answer 1]
              (convert_answers_for_title two_redirects))
    as (Hledger & _ & Hnodup).
  split; [done|]. apply Hnodup. no_duplicates.
Defined.

Lemma title_in_flight_at_timeout_is_lost_witness :
  "b" ∉ reported
          (consumer
             (parse_mp (H := sample_extern)
                (convert (H := sample_extern) two_redirects) two_redirects
                (pooled 2 None)
                ([Feed; Feed; Answer 0] ++ NoAnswer 1 :: [Feed; Answer 0]))).
Proof.
  apply (title_in_flight_at_timeout_is_lost (H := sample_extern)
           (convert (H := sample_extern) two_redirects) two_redirects
           (pooled 2 None) [Feed; Feed; Answer 0] [Feed; Answer 0] 1 "b"
           (convert_answers_for_title two_redirects)).
  - no_duplicates.
  - reflexivity.
  - by left.
Defined.

Lemma empty_chunks_process_nothing_witness :
  parse_mp (H := sample_extern) (convert (H := sample_extern) two_articles)
    two_articles (pooled 0 None) [Feed; Answer 0; NoAnswer 2]
  = mkState ["a"; "b"] 0 [] 0 0 [add_metadata "article_format" "html"]
      Finished.
Proof.
  by apply (empty_chunks_process_nothing (H := sample_extern)
              (convert (H := sample_extern) two_articles) two_articles
              (pooled 0 None)).
Defined.

Lemma single_chunk_run_is_sequential_witness :
  let st := parse_mp (H := sample_extern)
              (convert (H := sample_extern) two_articles) two_articles
              (pooled 5 None) [Feed; Feed; Answer 0; Answer 0] in
  (consumer st, run_status st)
  = parse_simple (H := sample_extern)
      (convert (H := sample_extern) two_articles) two_articles
      (pooled 5 None).
Proof.
  apply (single_chunk_run_is_sequential (H := sample_extern)
           (convert (H := sample_extern) two_articles) two_articles
           (pooled 5 None)); [reflexivity | simpl; lia].
Defined.

(** ** Language links *)

Section LanguageLinkFacts.
Context `{Extern}.
Variable wikidb : Wiki.
Variable self : WikiParser.

Lemma languagelink_targets_spec languagelinks targets set :
  languagelink_targets wikidb self languagelinks targets = Ok set →
  (∀ u, u ∈ set
        ↔ u ∈ targets
          ∨ ∃ link, link ∈ languagelinks
                    ∧ kept_target wikidb self link u)
  ∧ (size set ≤ size targets + length languagelinks)%nat.
Proof.
  revert targets.
  induction languagelinks as [|[namespace target] rest IH]; intros targets;
    simpl.
  - intros [= <-]. split; [|lia]. intros u. split; [by left|].
    intros [Hu | (link & Hlink & _)]; [done|]. by apply elem_of_nil in Hlink.
  - assert (Hskip :
      ¬ (∃ u, kept_target wikidb self (namespace, target) u) →
      languagelink_targets wikidb self rest targets = Ok set →
      (∀ u, u ∈ set
            ↔ u ∈ targets
              ∨ ∃ link, link ∈ (namespace, target) :: rest
                        ∧ kept_target wikidb self link u)
      ∧ (size set ≤ size targets + S (length rest))%nat).
    { intros Hnot Hrest. destruct (IH _ Hrest) as [Hset Hsize].
      split; [|lia]. intros u. rewrite Hset. split.
      - intros [Hu | (link & Hlink & Hkept)]; [by left|].
        right. exists link. split; [by right | done].
      - intros [Hu | (link & Hlink & Hkept)]; [by left|].
        apply elem_of_cons in Hlink as [->|Hlink]; [|by eauto].
        destruct Hnot. by exists u. }
    case_bool_decide as Hns;
      [|apply Hskip; intros (u & Hu & _); done].
    destruct (Z.gtb_spec (Str.find target (namespace +:+ ":")) (-1))
      as [Hfind|Hfind];
      [|apply Hskip; intros (u & _ & Hu & _); simpl in Hu; lia].
    destruct (reader_getitem wikidb _) as [[key|msg|descr]|text] eqn:Hr;
      try (apply Hskip; intros (u & _ & _ & -> & key' & Hkey);
           simpl in Hkey; congruence);
      try done.
    intros Hrest. destruct (IH _ Hrest) as [Hset Hsize]. split.
    + intros u. rewrite Hset, elem_of_union, elem_of_singleton. split.
      * intros [[-> | Hu] | (link & Hlink & Hkept)]; [|by left|].
        -- right. exists (namespace, target). split; [by left|].
           repeat split; eauto; simpl; lia.
        -- right. exists link. split; [by right | done].
      * intros [Hu | (link & Hlink & Hkept)]; [by auto|].
        apply elem_of_cons in Hlink as [->|Hlink]; [|by eauto].
        destruct Hkept as (_ & _ & -> & _). by auto.
    + pose proof (size_union_alt {[Str.slice_from target
                                     (Str.len namespace + 1)]} targets)
        as Hunion.
      pose proof (subseteq_size (targets ∖ {[Str.slice_from target
                                              (Str.len namespace + 1)]})
                    targets) as Hdiff.
      rewrite size_singleton in Hunion.
      assert (targets ∖ {[Str.slice_from target (Str.len namespace + 1)]}
              ⊆ targets) as Hsub by (intros x; rewrite elem_of_difference;
                                     tauto).
      specialize (Hdiff Hsub). lia.
Qed.

(** X11. [process_languagelinks] makes one call for every distinct
    target it keeps, and no other: an uncounted redirect from the fully
    qualified target to the article.  A target is kept only for a link of
    a configured language whose target names that language and is missing
    from the database; there are never more calls than links. *)
Theorem language_links_resolve_to_missing_titles
    (title : string) (languagelinks : list (string * string))
    (calls : list consumer_call) :
  process_languagelinks wikidb self title (Some languagelinks) = Ok calls →
  ∃ targets,
    NoDup targets
    ∧ calls
      = (fun u =>
           add_article (get_fqname wikidb u)
             (tojson (JArray [JString ""; JArray [];
                              JObject [("r", JString title)]]))
             true false None) <$> targets
    ∧ (∀ u, u ∈ targets
            ↔ ∃ link, link ∈ languagelinks
                      ∧ kept_target wikidb self link u)
    ∧ (length calls ≤ length languagelinks)%nat.
Proof.
  unfold process_languagelinks.
  destruct languagelinks as [|link rest] eqn:Hll.
  - intros [= <-]. exists []. split; [constructor|]. split; [done|].
    split; [|done]. intros u. split; [intros Hu|intros (l & Hl & _)];
      by apply elem_of_nil in Hu || by apply elem_of_nil in Hl.
  - rewrite <- Hll.
    destruct (languagelink_targets wikidb self languagelinks ∅)
      as [set|e] eqn:Ht; simpl; [|done].
    intros [= <-]. destruct (languagelink_targets_spec _ _ _ Ht)
      as [Hset Hsize].
    exists (elements set). split; [apply NoDup_elements|].
    split; [done|]. split.
    + intros u. rewrite elem_of_elements, Hset. split; [|by right].
      intros [Hu|Hu]; [|done]. by apply elem_of_empty in Hu.
    + rewrite length_fmap. rewrite size_empty in Hsize.
      unfold size, set_size in Hsize. simpl in Hsize. lia.
Qed.

Section OwnLanguage.
Variable lower : string → string.
Variable lang_links : option string.
Variable sitelang : string.

Lemma init_lang_links_langs_spec x :
  x ∈ init_lang_links_langs lower lang_links sitelang
  ↔ Str.truthy lang_links = true
    ∧ x ≠ sitelang
    ∧ ∃ l, l ∈ split_sep "," (default "" lang_links)
           ∧ x = lower (Str.strip l).
Proof.
  unfold init_lang_links_langs. destruct (Str.truthy lang_links).
  - rewrite elem_of_list_to_set, list_elem_of_In, filter_In,
      <- list_elem_of_In, list_elem_of_fmap, negb_true_iff, String.eqb_neq.
    split.
    + intros [(l & -> & Hl) Hne]. eauto.
    + intros (_ & Hne & l & Hl & ->). eauto.
  - split; [intros Hx; by apply elem_of_empty in Hx | by intros [? _]].
Qed.

(** X12. The language of the site is never among the languages
    [WikiParser.__init__] keeps for language links, and without the
    option there is none; so the links of an article to its own language
    never make [process_languagelinks] call the consumer. *)
Theorem own_language_is_never_linked :
  (sitelang ∉ init_lang_links_langs lower lang_links sitelang)
  ∧ (Str.truthy lang_links = false →
     init_lang_links_langs lower lang_links sitelang = ∅)
  ∧ (lang_links_langs self
     = init_lang_links_langs lower lang_links sitelang →
     ∀ title languagelinks,
       (∀ link, link ∈ languagelinks → link.1 = sitelang) →
       process_languagelinks wikidb self title (Some languagelinks) = Ok []).
Proof.
  assert (Hown : sitelang ∉ init_lang_links_langs lower lang_links sitelang).
  { rewrite init_lang_links_langs_spec. by intros (_ & Hne & _). }
  split; [done|]. split.
  - intros Hfalsy. unfold init_lang_links_langs. by rewrite Hfalsy.
  - intros Hself title languagelinks Hlinks.
    destruct languagelinks as [|link rest] eqn:Hll; [done|].
    rewrite <- Hll in *. unfold process_languagelinks.
    assert (Ht : ∀ targets,
      languagelink_targets wikidb self languagelinks targets = Ok targets).
    { clear Hll. induction languagelinks as [|[ns target] l IH];
        intros targets; [done|]. simpl.
      assert (Hns : ns = sitelang)
        by apply (Hlinks (ns, target)), list_elem_of_here.
      case_bool_decide as Hin; [by rewrite Hself, Hns in Hin|].
      apply IH. intros l' Hl'. apply Hlinks. by right. }
    rewrite Hll at 1. rewrite Ht. simpl. by rewrite elements_empty.
Qed.

End OwnLanguage.

End LanguageLinkFacts.

Lemma language_links_resolve_to_missing_titles_witness :
  ∃ targets,
    NoDup targets
    ∧ (∀ u, u ∈ targets
            ↔ ∃ link, link ∈ [("de", "de:Haus"); ("fr", "fr:Maison");
                              ("de", "de:Haus"); ("de", "de:a")]
                      ∧ kept_target two_articles german_links link u)
    ∧ (1 ≤ 4)%nat.
Proof.
  destruct (language_links_resolve_to_missing_titles (H := sample_extern)
              two_articles german_links "Home"
              [("de", "de:Haus"); ("fr", "fr:Maison");
               ("de", "de:Haus"); ("de", "de:a")]
              [add_article "Haus" "['', [], {'r': 'Home'}]" true false None])
    as (targets & Hnodup & _ & Htargets & Hlen); [by vm_compute|].
  by exists targets.
Defined.

Lemma own_language_is_never_linked_witness :
  init_lang_links_langs ascii_lower None "en" = ∅
  ∧ process_languagelinks (H := sample_extern) two_articles
      (mkParser (init_lang_links_langs ascii_lower (Some "de, EN ,fr") "en")
         None 1 0 None)
      "Home" (Some [("en", "en:House")])
    = Ok [].
Proof.
  split.
  - by apply (proj1 (proj2 (own_language_is_never_linked
                              (H := sample_extern) two_articles german_links
                              ascii_lower None "en"))).
  - apply (proj2 (proj2 (own_language_is_never_linked
                           (H := sample_extern) two_articles
                           (mkParser
                              (init_lang_links_langs ascii_lower
                                 (Some "de, EN ,fr") "en")
                              None 1 0 None)
                           ascii_lower (Some "de, EN ,fr") "en")));
      [reflexivity|].
    intros link Hlink. apply elem_of_cons in Hlink as [->|Hlink]; [done|].
    by apply elem_of_nil in Hlink.
Defined.

(** ** More on the reference tracker *)

Section MoreReferenceFacts.
Context `{Extern}.

Lemma registration_frame self obj g :
  g ≠ default "" (attributes obj !! "group") →
  references (xwriteReference self obj).1 !! g = references self !! g
  ∧ namedrefs (xwriteReference self obj).1 !! g = namedrefs self !! g.
Proof.
  intros Hne. unfold xwriteReference, defaultdict_getitem.
  set (group := default "" (attributes obj !! "group")) in *.
  destruct (references self !! group), (Str.truthy _),
    (namedrefs self !! group) as [m|]; simpl;
    try destruct (m !! _) as [[first count]|]; simpl;
    try destruct (∅ !! _) as [[first count]|]; simpl;
    rewrite ?lookup_insert_ne by done; done.
Qed.

(** What a registration does to its own group. *)
Lemma registration_group self obj :
  let group := default "" (attributes obj !! "group") in
  let refs := default [] (references self !! group) in
  let named := default ∅ (namedrefs self !! group) in
  let self' := (xwriteReference self obj).1 in
  match ref_key obj with
  | None =>
      references self' !! group = Some (refs ++ [obj])
      ∧ namedrefs self' = namedrefs self
  | Some name =>
      match named !! name with
      | None =>
          references self' !! group = Some (refs ++ [obj])
          ∧ namedrefs self' !! group
            = Some (<[name := (S (length refs), 1%nat)]> named)
      | Some (first, count) =>
          references self' !! group = Some refs
          ∧ namedrefs self' !! group
            = Some (<[name := (first, S count)]> named)
      end
  end.
Proof.
  intros group refs named self'. subst self' refs named.
  unfold ref_key, xwriteReference, defaultdict_getitem. fold group.
  destruct (Str.truthy (attributes obj !! "name"));
    destruct (references self !! group) as [l|] eqn:Hl;
    destruct (namedrefs self !! group) as [m|] eqn:Hm; simpl;
    try destruct (m !! _) as [[first count]|]; simpl;
    rewrite ?lookup_empty; simpl;
    rewrite ?lookup_insert_eq, ?length_app, ?Nat.add_1_r, ?Hl, ?Hm; done.
Qed.

(** X13. Registering a reference touches its own group only, and
    there it takes nothing away: the reference lists and the named
    references of every other group stay as they were, and the list of
    its own group is what it was, with the reference at its end when it
    is new. *)
Theorem registration_leaves_other_groups
    (self : XHTMLWriter) (obj : node) (g : string) :
  let group := default "" (attributes obj !! "group") in
  let refs := default [] (references self !! group) in
  let self' := (xwriteReference self obj).1 in
  (g ≠ group →
     references self' !! g = references self !! g
     ∧ namedrefs self' !! g = namedrefs self !! g)
  ∧ (references self' !! group = Some refs
     ∨ references self' !! group = Some (refs ++ [obj])).
Proof.
  intros group refs self'. split; [apply registration_frame|].
  pose proof (registration_group self obj) as Hown. simpl in Hown.
  fold group refs self' in Hown.
  destruct (ref_key obj) as [key|];
    [destruct (default ∅ (namedrefs self !! group) !! key) as [[? ?]|]|];
    destruct Hown as [Hrefs _]; auto.
Qed.

Lemma names_point_at_entries_step self obj :
  names_point_at_entries self →
  names_point_at_entries (xwriteReference self obj).1.
Proof.
  intros Hinv g m name first count Hg Hm.
  set (group := default "" (attributes obj !! "group")).
  destruct (decide (g = group)) as [->|Hne].
  2:{ destruct (registration_frame self obj g Hne) as [Hrefs Hnamed].
      rewrite Hnamed in Hg. rewrite Hrefs. by eapply Hinv. }
  pose proof (registration_group self obj) as Hown. simpl in Hown.
  fold group in Hown.
  assert (Hold : ∀ name' first' count',
    default ∅ (namedrefs self !! group) !! name' = Some (first', count') →
    (1 ≤ count')%nat ∧ (1 ≤ first')%nat
    ∧ ∃ refs obj', references self !! group = Some refs
                   ∧ refs !! (first' - 1)%nat = Some obj'
                   ∧ ref_key obj' = Some name').
  { intros name' first' count' Hlook.
    destruct (namedrefs self !! group) as [m'|] eqn:Hm'; [|done].
    by eapply Hinv. }
  assert (Hgrow : ∀ name' first' count',
    default ∅ (namedrefs self !! group) !! name' = Some (first', count') →
    (1 ≤ count')%nat ∧ (1 ≤ first')%nat
    ∧ ∃ refs obj',
        Some (default [] (references self !! group) ++ [obj]) = Some refs
        ∧ refs !! (first' - 1)%nat = Some obj'
        ∧ ref_key obj' = Some name').
  { intros name' first' count' Hlook.
    destruct (Hold _ _ _ Hlook) as (? & ? & refs & obj' & Hr & Hl & Hk).
    repeat split; [done..|]. rewrite Hr. simpl.
    exists (refs ++ [obj]), obj'. split; [done|]. split; [|done].
    by apply lookup_app_l_Some. }
  destruct (ref_key obj) as [key|] eqn:Hkey.
  - destruct (default ∅ (namedrefs self !! group) !! key)
      as [[first0 count0]|] eqn:Hseen; destruct Hown as [Hrefs Hnamed];
      rewrite Hnamed in Hg; injection Hg as <-; rewrite Hrefs;
      destruct (decide (name = key)) as [->|Hname].
    + rewrite lookup_insert_eq in Hm. injection Hm as <- <-.
      destruct (Hold _ _ _ Hseen) as (? & ? & refs & obj' & Hr & Hl & Hk).
      split; [lia|]. split; [done|]. rewrite Hr. simpl. by eauto.
    + rewrite lookup_insert_ne in Hm by done.
      destruct (Hold _ _ _ Hm) as (? & ? & refs & obj' & Hr & Hl & Hk).
      repeat split; [done..|]. rewrite Hr. simpl. by eauto.
    + rewrite lookup_insert_eq in Hm. injection Hm as <- <-.
      split; [lia|]. split; [lia|]. eexists _, obj. split; [done|].
      split; [|done]. simpl. rewrite Nat.sub_0_r.
      by rewrite lookup_app_r, Nat.sub_diag.
    + rewrite lookup_insert_ne in Hm by done. by apply Hgrow.
  - destruct Hown as [Hrefs Hnamed]. rewrite Hnamed in Hg. rewrite Hrefs.
    apply Hgrow. by rewrite Hg.
Qed.

(** X14. After the references of a document are registered with a new
    writer, in any number and order, every named reference on record has
    been seen at least once and its first position is that of an entry
    of its group that carries the name. *)
Theorem registered_names_point_at_entries (objs : list node) :
  names_point_at_entries (register_all objs new_writer).
Proof.
  unfold register_all.
  assert (Hnew : names_point_at_entries new_writer).
  { intros g m name first count Hg. unfold new_writer in Hg.
    simpl in Hg. by rewrite lookup_empty in Hg. }
  revert Hnew. generalize new_writer.
  induction objs as [|obj objs IH]; intros self Hself; [done|].
  simpl. by apply IH, names_point_at_entries_step.
Qed.


End MoreReferenceFacts.

Lemma registration_leaves_other_groups_witness :
  references
    (xwriteReference (xwriteReference new_writer unnamed_ref).1 grouped_ref).1
  !! "" = Some [unnamed_ref].
Proof.
  by rewrite (proj1 (proj1 (registration_leaves_other_groups
                              (xwriteReference new_writer unnamed_ref).1
                              grouped_ref "") ltac:(done))).
Defined.


(** ** Totals, named links and images *)

Section TotalFacts.
Variable iteritems_sizes : list (string * Z).
Variable nsnum : string → Z.

Abbreviation db_total := (total iteritems_sizes nsnum).
Abbreviation db_articles_sizes := (articles_sizes iteritems_sizes nsnum).

Lemma total_loop_spec items articles total_bytes :
  total_loop items articles total_bytes
  = (articles + Z.of_nat (length items), total_bytes + sizes_sum items).
Proof.
  revert articles total_bytes.
  induction items as [|[article size] items IH]; intros articles total_bytes.
  - simpl. f_equal; lia.
  - cbn [total_loop]. rewrite IH. cbn [length sizes_sum foldr].
    fold (sizes_sum items). simpl. f_equal; lia.
Qed.

Lemma sizes_sum_app l1 l2 :
  sizes_sum (l1 ++ l2) = sizes_sum l1 + sizes_sum l2.
Proof.
  induction l1 as [|item l1 IH]; [done|].
  cbn [app sizes_sum foldr]. fold (sizes_sum (l1 ++ l2)) (sizes_sum l1).
  rewrite IH. lia.
Qed.

Lemma islice_split {A} (l : list A) (start mid stop : nat) :
  (start ≤ mid)%nat → (mid ≤ stop)%nat →
  islice l start (Some stop)
  = islice l start (Some mid) ++ islice l mid (Some stop).
Proof.
  intros Hsm Hms. unfold islice.
  replace (stop - start)%nat with ((mid - start) + (stop - mid))%nat by lia.
  rewrite <- take_take_drop, drop_drop.
  by replace (start + (mid - start))%nat with mid by lia.
Qed.

(** X16. [total] answers the number of titles of the slice of the
    article namespace and the sum of their sizes; nothing outside the
    namespace is counted, nor more titles than the slice is long; and the
    totals of two adjacent slices add up to the total of the slice they
    make. *)
Theorem total_counts_the_slice (start : nat) (end_ : option nat) :
  let items := islice db_articles_sizes start end_ in
  db_total start end_ = (Z.of_nat (length items), sizes_sum items)
  ∧ Forall (fun item => nsnum item.1 = 0 ∧ item ∈ iteritems_sizes) items
  ∧ (∀ stop, end_ = Some stop → (length items ≤ stop - start)%nat)
  ∧ (∀ mid stop,
       end_ = Some stop → (start ≤ mid)%nat → (mid ≤ stop)%nat →
       db_total start (Some stop)
       = ((db_total start (Some mid)).1 + (db_total mid (Some stop)).1,
          (db_total start (Some mid)).2 + (db_total mid (Some stop)).2)).
Proof.
  intros items.
  assert (Htotal : ∀ s e,
    db_total s e
    = (Z.of_nat (length (islice db_articles_sizes s e)),
       sizes_sum (islice db_articles_sizes s e))).
  { intros s e. unfold total. by rewrite total_loop_spec. }
  split; [apply Htotal|]. split; [|split].
  - apply Forall_forall. intros item Hitem.
    assert (Hin : item ∈ db_articles_sizes).
    { apply (elem_of_submseteq items); [done|].
      apply sublist_submseteq. subst items. unfold islice.
      destruct end_ as [stop|]; [|apply sublist_drop].
      etrans; [apply sublist_take | apply sublist_drop]. }
    unfold articles_sizes in Hin.
    apply list_elem_of_In, filter_In in Hin as [Hin Hns].
    split; [lia | by apply list_elem_of_In].
  - intros stop ->. subst items. unfold islice. rewrite length_take. lia.
  - intros mid stop _ Hsm Hms. rewrite !Htotal. cbn [fst snd].
    rewrite (islice_split _ start mid stop) by done.
    rewrite length_app, sizes_sum_app. f_equal. lia.
Qed.

End TotalFacts.

Lemma total_counts_the_slice_witness :
  (length (islice (articles_sizes sample_sizes sample_nsnum) 0 (Some 2%nat))
   ≤ 2 - 0)%nat
  ∧ total sample_sizes sample_nsnum 0 (Some 3%nat)
    = ((total sample_sizes sample_nsnum 0 (Some 1%nat)).1
       + (total sample_sizes sample_nsnum 1 (Some 3%nat)).1,
       (total sample_sizes sample_nsnum 0 (Some 1%nat)).2
       + (total sample_sizes sample_nsnum 1 (Some 3%nat)).2).
Proof.
  split.
  - by apply (proj1 (proj2 (proj2 (total_counts_the_slice
                                     sample_sizes sample_nsnum 0
                                     (Some 2%nat))))
                2%nat).
  - apply (proj2 (proj2 (proj2 (total_counts_the_slice
                                  sample_sizes sample_nsnum 0
                                  (Some 3%nat))))
             1%nat 3%nat); [done | lia | lia].
Defined.

Section NamedLinkFacts.
Variable caption : node → string.

(** X17. Named links without content are numbered consecutively from
    the counter of the writer, in the order in which they are written; a
    link with content takes no number; the counter ends that many
    higher, and every link is written. *)
Theorem named_links_are_numbered (namedLinkCount : nat) (objs : list node) :
  let written := write_named_urls caption namedLinkCount objs in
  let numbered := length (List.filter childless objs) in
  written.1 = (namedLinkCount + numbered)%nat
  ∧ omap element_text written.2
    = (fun k : nat => "[" +:+ pretty k +:+ "]")
        <$> seq namedLinkCount numbered
  ∧ length written.2 = length objs.
Proof.
  revert namedLinkCount.
  induction objs as [|obj objs IH]; intros count;
    [by simpl; rewrite Nat.add_0_r|].
  cbn [write_named_urls List.filter]. unfold xwriteNamedURL, childless.
  fold childless. destruct (children obj) as [|child rest].
  - destruct (IH (S count)) as (Hcount & Htexts & Hlen).
    destruct (write_named_urls caption (S count) objs) as [count' l].
    cbn [fst snd length seq fmap list_fmap] in *.
    split; [lia|]. split; [|congruence].
    change (omap element_text (?e :: l))
      with (match element_text e with
            | Some text => text :: omap element_text l
            | None => omap element_text l
            end).
    cbn [element_text]. by rewrite Htexts.
  - destruct (IH count) as (Hcount & Htexts & Hlen).
    destruct (write_named_urls caption count objs) as [count' l].
    cbn [fst snd length] in *.
    split; [done|]. split; [|congruence].
    change (omap element_text (?e :: l))
      with (match element_text e with
            | Some text => text :: omap element_text l
            | None => omap element_text l
            end).
    cbn [element_text]. by rewrite Htexts.
Qed.

End NamedLinkFacts.
